(** * Event ticket management (streamlit_pg_06.py): a shallow embedding

    The Streamlit script keeps two pandas data frames, [tickets] and [menu],
    mutates single cells with [DataFrame.at], and writes the whole table back
    after each action.  A data frame is modelled as the list of its rows (the
    frames come from [read_sql], so the index label of a row is its position),
    a cell write [df.at[idx, col] = v] as [alter] at position [idx], and
    [pd.Timestamp.now()] as a value handed to the operation.  Text is a
    string of ASCII characters, one character to a position: the digits and
    the white space that [int] reads, and the length that [zfill] counts, are
    those of ASCII text. *)

From Stdlib Require Import ZArith Ascii String List.
From stdpp Require Import base tactics option decidable numbers list strings sorting.

Local Open Scope Z_scope.

(** ** Ticket store *)

(** One row of the [tickets] frame after the cleaning of [load_all_data]:
    [Seq] went through [pd.to_numeric(errors='coerce')] and is either a number
    or NaN ([None]); [Timestamp] is a string or NULL. Numeric cells are taken
    to hold integers, and [Type] and [Category] to hold strings. *)
Record Ticket := mkTicket {
  TicketID : string;
  Type_ : string;
  Category : string;
  Admit : Z;
  Seq : option Z;
  Sold : bool;
  Customer : string;
  Visited : bool;
  Visitor_Seats : Z;
  Timestamp : option string
}.

Global Instance Ticket_eq_dec : EqDecision Ticket.
Proof. solve_decision. Defined.

(** Column writes of one row. *)
Definition set_Sold (b : bool) (t : Ticket) : Ticket :=
  mkTicket (TicketID t) (Type_ t) (Category t) (Admit t) (Seq t)
           b (Customer t) (Visited t) (Visitor_Seats t) (Timestamp t).
Definition set_Customer (c : string) (t : Ticket) : Ticket :=
  mkTicket (TicketID t) (Type_ t) (Category t) (Admit t) (Seq t)
           (Sold t) c (Visited t) (Visitor_Seats t) (Timestamp t).
Definition set_Visited (b : bool) (t : Ticket) : Ticket :=
  mkTicket (TicketID t) (Type_ t) (Category t) (Admit t) (Seq t)
           (Sold t) (Customer t) b (Visitor_Seats t) (Timestamp t).
Definition set_Visitor_Seats (v : Z) (t : Ticket) : Ticket :=
  mkTicket (TicketID t) (Type_ t) (Category t) (Admit t) (Seq t)
           (Sold t) (Customer t) (Visited t) v (Timestamp t).
Definition set_Timestamp (ts : option string) (t : Ticket) : Ticket :=
  mkTicket (TicketID t) (Type_ t) (Category t) (Admit t) (Seq t)
           (Sold t) (Customer t) (Visited t) (Visitor_Seats t) ts.

(** [tickets.index[tickets['TicketID'] == tid][0]]: the position of the first
    row carrying the id; [None] is the IndexError of an empty selection. *)
Definition first_index (tid : string) (tickets : list Ticket) : option nat :=
  fst <$> list_find (λ t, TicketID t = tid) tickets.

(** ** Menu (category catalog) *)

(** A cell of a [Seq] column as [custom_sort] may meet it: a number, a string,
    or NaN. *)
Inductive SeqCell :=
  | SeqNum (z : Z)
  | SeqStr (s : string)
  | SeqNaN.

Global Instance SeqCell_eq_dec : EqDecision SeqCell.
Proof. solve_decision. Defined.

(** The [Admit] cell of a menu row as [iterrows] hands it over: a whole
    number, or the [None] of a cell without a value. *)
Inductive NumCell :=
  | Number (z : Z)
  | Null.

Global Instance NumCell_eq_dec : EqDecision NumCell.
Proof. solve_decision. Defined.

Record MenuRow := mkMenuRow {
  m_Seq : SeqCell;
  m_Type : string;
  m_Category : string;
  m_Series : option string;
  m_Admit : NumCell;
  Alloc : option Z;
  Total_Capacity : option Z
}.

Global Instance MenuRow_eq_dec : EqDecision MenuRow.
Proof. solve_decision. Defined.

(** The two values of the [st.radio("Type", ["Public", "Guest"])] widgets. *)
Inductive TypeChoice := Public | Guest.

Definition type_label (c : TypeChoice) : string :=
  match c with Public => "Public" | Guest => "Guest" end.

(** [menu[menu['Type'] == s_type]['Category']], the options of the category
    select box. *)
Definition category_options (menu : list MenuRow) (ty : TypeChoice) : list string :=
  m_Category <$> filter (λ m, m_Type m = type_label ty) menu.

(** ** Sale engine *)

(** The ids offered by the manual sale form (line 128). *)
Definition avail (ty : TypeChoice) (cat : string) (tickets : list Ticket) : list string :=
  TicketID <$> filter (λ t, Type_ t = type_label ty ∧ Category t = cat ∧ Sold t = false) tickets.

(** Lines 134-137: the three cell writes of a confirmed sale. *)
Definition sale_mutation (tid cust now : string) (tickets : list Ticket)
  : option (list Ticket) :=
  idx ← first_index tid tickets;
  Some (alter (set_Timestamp (Some now)) idx
         (alter (set_Customer cust) idx
           (alter (set_Sold true) idx tickets))).

(** The manual sale form: the category comes from the menu's select box, the
    ticket id from [avail]; [None] when the form cannot be submitted with these
    choices (nothing is written). *)
Definition manual_sale (menu : list MenuRow) (ty : TypeChoice) (cat tid cust now : string)
    (tickets : list Ticket) : option (list Ticket) :=
  if decide (cat ∈ category_options menu ty ∧ tid ∈ avail ty cat tickets)
  then sale_mutation tid cust now tickets
  else None.

(** Python's [str.zfill(width)]: left padding with zeros up to [width], a
    leading sign staying in front. *)
Fixpoint zeros (n : nat) : string :=
  match n with O => "" | S n => String "0" (zeros n) end.

Definition zfill (width : nat) (s : string) : string :=
  let pad := (width - String.length s)%nat in
  match s with
  | String c r =>
      if decide (c = "+"%char ∨ c = "-"%char)
      then String c (zeros pad +:+ r)
      else zeros pad +:+ s
  | EmptyString => zeros pad
  end.

(** A row of the uploaded sheet, [TicketID] already through [astype(str)]. *)
Record UploadRow := mkUploadRow {
  up_TicketID : string;
  up_CustomerName : string
}.

(** Lines 147-152, one iteration of the bulk loop: the first row with this id
    that is not sold, if there is one, is sold to the row's customer. *)
Definition bulk_step (now : string) (row : UploadRow) (tickets : list Ticket)
  : list Ticket :=
  match list_find (λ t, TicketID t = up_TicketID row ∧ Sold t = false) tickets with
  | Some (idx, _) =>
      alter (set_Timestamp (Some now)) idx
        (alter (set_Customer (up_CustomerName row)) idx
          (alter (set_Sold true) idx tickets))
  | None => tickets
  end.

(** Line 145. *)
Definition normalize_upload (row : UploadRow) : UploadRow :=
  mkUploadRow (zfill 4 (up_TicketID row)) (up_CustomerName row).

(** The loop of lines 146-152; [clock i] is what [pd.Timestamp.now()] returns
    in iteration [i]. *)
Fixpoint bulk_loop (clock : nat → string) (i : nat) (rows : list UploadRow)
    (tickets : list Ticket) : list Ticket :=
  match rows with
  | [] => tickets
  | row :: rest => bulk_loop clock (S i) rest (bulk_step (clock i) row tickets)
  end.

Definition bulk_sale (clock : nat → string) (up_df : list UploadRow)
    (tickets : list Ticket) : list Ticket :=
  bulk_loop clock 0 (normalize_upload <$> up_df) tickets.

(** The ids offered by the reversal form (line 157). *)
Definition sold_list (tickets : list Ticket) : list string :=
  TicketID <$> filter (λ t, Sold t = true) tickets.

(** Lines 162-165. *)
Definition reverse_sale_mutation (tid : string) (tickets : list Ticket)
  : option (list Ticket) :=
  idx ← first_index tid tickets;
  Some (alter (set_Timestamp None) idx
         (alter (set_Customer "") idx
           (alter (set_Sold false) idx tickets))).

Definition reverse_sale (tid : string) (tickets : list Ticket) : option (list Ticket) :=
  if decide (tid ∈ sold_list tickets) then reverse_sale_mutation tid tickets else None.

(** ** Visitor check-in engine *)

(** Lines 187-188. *)
Definition elig (ty : TypeChoice) (cat : string) (tickets : list Ticket) : list string :=
  TicketID <$> filter (λ t, Type_ t = type_label ty ∧ Category t = cat
                            ∧ Sold t = true ∧ Visited t = false) tickets.

(** Line 192: [Admit] of the first row with this id. *)
Definition max_v (tid : string) (tickets : list Ticket) : option Z :=
  (Admit ∘ snd) <$> list_find (λ t, TicketID t = tid) tickets.

(** [st.number_input(label, min_value, max_value, value)] without a key. The
    widget is identified by its arguments. [shown] is the widget of the last
    render: the three arguments it was built with and the number it holds.
    Built again with the same arguments the widget hands that number back;
    built with other arguments it is a new widget and hands back its default
    [value]. A default outside the bounds raises ([None]). *)
Definition number_input (lo hi value : Z) (shown : option (Z * Z * Z * Z)) : option Z :=
  if decide (lo ≤ value ≤ hi) then
    match shown with
    | Some (lo', hi', value', held) =>
        if decide (lo' = lo ∧ hi' = hi ∧ value' = value) then Some held else Some value
    | None => Some value
    end
  else None.

(** Lines 191-193 over the two runs of the script that a check-in takes. The
    form is rendered with the select box on its first option, so the number
    input that the user sees was built from the [Admit] of that ticket, and
    the number [v] entered into it lies within those bounds; a change of the
    select box inside the form does not run the script. On the run of the
    submit [tid] is the selected ticket and line 193 builds the number input
    from the [Admit] of [tid]: what it hands back is the count written. *)
Definition confirmed_visitors (ty : TypeChoice) (cat tid : string) (v : Z)
    (tickets : list Ticket) : option Z :=
  first ← head (elig ty cat tickets);
  hi0 ← max_v first tickets;
  _ ← number_input 1 hi0 hi0 None;
  if decide (1 ≤ v ≤ hi0) then
    hi ← max_v tid tickets;
    number_input 1 hi hi (Some (1, hi0, hi0, v))
  else None.

(** Lines 195-198. *)
Definition checkin_mutation (tid : string) (v_count : Z) (now : string)
    (tickets : list Ticket) : option (list Ticket) :=
  idx ← first_index tid tickets;
  Some (alter (set_Timestamp (Some now)) idx
         (alter (set_Visitor_Seats v_count) idx
           (alter (set_Visited true) idx tickets))).

Definition check_in (menu : list MenuRow) (ty : TypeChoice) (cat tid : string)
    (v : Z) (now : string) (tickets : list Ticket) : option (list Ticket) :=
  if decide (cat ∈ category_options menu ty ∧ tid ∈ elig ty cat tickets)
  then v_count ← confirmed_visitors ty cat tid v tickets;
       checkin_mutation tid v_count now tickets
  else None.

(** Line 203. *)
Definition visited_list (tickets : list Ticket) : list string :=
  TicketID <$> filter (λ t, Visited t = true) tickets.

(** Lines 208-210. *)
Definition reverse_entry_mutation (tid : string) (tickets : list Ticket)
  : option (list Ticket) :=
  idx ← first_index tid tickets;
  Some (alter (set_Visitor_Seats 0) idx
         (alter (set_Visited false) idx tickets)).

Definition reverse_entry (tid : string) (tickets : list Ticket) : option (list Ticket) :=
  if decide (tid ∈ visited_list tickets) then reverse_entry_mutation tid tickets else None.

(** ** Reset (lines 73-83) *)

Definition reset_row (t : Ticket) : Ticket :=
  set_Timestamp None (set_Visitor_Seats 0 (set_Customer "" (set_Visited false (set_Sold false t)))).

Definition reset_database (admin_pass : string) (tickets : list Ticket)
  : option (list Ticket) :=
  if decide (admin_pass = "admin123") then Some (reset_row <$> tickets) else None.

(** ** Python string built-ins used by the script (ASCII strings)

    On plain ASCII text ([plain_text] below) these are the built-ins of
    Python; the digits and spaces of other scripts, which [int] reads as
    well, are outside the embedding. *)

(** ['-' in s] *)
Fixpoint contains_dash (s : string) : bool :=
  match s with
  | EmptyString => false
  | String c r => if decide (c = "-"%char) then true else contains_dash r
  end.

(** [s.split('-')]: one more part than there are dashes. *)
Fixpoint split_dash (s : string) : list string :=
  match s with
  | EmptyString => [""]
  | String c r =>
      if decide (c = "-"%char) then "" :: split_dash r
      else match split_dash r with
           | h :: t => String c h :: t
           | [] => [String c ""]
           end
  end.

Fixpoint lstrip (s : string) : string :=
  match s with
  | String c r => if Ascii.is_space c then lstrip r else s
  | EmptyString => ""
  end.

Fixpoint rstrip (s : string) : string :=
  match s with
  | EmptyString => ""
  | String c r =>
      match rstrip r with
      | EmptyString => if Ascii.is_space c then "" else String c ""
      | r' => String c r'
      end
  end.

(** The digits of a decimal literal, single underscores allowed between two
    digits; [prev] tells whether the character before was a digit. *)
Fixpoint digits_value (acc : Z) (prev : bool) (s : string) : option Z :=
  match s with
  | EmptyString => if prev then Some acc else None
  | String c r =>
      match Ascii.is_nat c with
      | Some d => digits_value (10 * acc + Z.of_nat d) true r
      | None => if decide (c = "_"%char)
                then (if prev then digits_value acc false r else None)
                else None
      end
  end.

(** [int(s)] for a string: surrounding white space, an optional sign, decimal
    digits; [None] is the ValueError. *)
Definition py_int (s : string) : option Z :=
  match rstrip (lstrip s) with
  | String "+" r => digits_value 0 false r
  | String "-" r => Z.opp <$> digits_value 0 false r
  | b => digits_value 0 false b
  end.

(** ** custom_sort (lines 57-60) *)

(** The lambda of line 59; [None] is the exception of [int(x)]. *)
Definition sort_key (x : SeqCell) : option Z :=
  match x with
  | SeqNum z => if decide (z = 0) then Some 10 else Some z
  | SeqStr s => if decide (s = "0") then Some 10 else py_int s
  | SeqNaN => None
  end.

(** [sort_values('sort_key')] on the frame extended by its key column. pandas
    does not fix the order of rows with equal keys; the model keeps them in
    their former order. *)
Definition by_sort_key {A} (r1 r2 : A * Z) : Prop := r1.2 ≤ r2.2.

Global Instance by_sort_key_dec {A} : RelDecision (@by_sort_key A).
Proof. intros r1 r2. unfold by_sort_key. apply _. Defined.

Definition sort_values {A} (df : list (A * Z)) : list (A * Z) :=
  merge_sort by_sort_key df.

(** [seq] is the frame's [Seq] column, [None] when it has none. *)
Definition custom_sort {A} (seq : option (A → SeqCell)) (df : list A) : option (list A) :=
  match seq with
  | None => Some df
  | Some col =>
      keys ← mapM (sort_key ∘ col) df;
      Some (fst <$> sort_values (zip df keys))
  end.

(** ** Dashboard: the inventory summary (lines 91-113) *)

Definition GroupKey : Type := Z * string * string * Z.

(** The grouping columns of a row; a row with NaN in [Seq] is left out by
    [groupby]. *)
Definition group_key (t : Ticket) : option GroupKey :=
  (λ s, (s, Type_ t, Category t, Admit t)) <$> Seq t.

(** [groupby] hands the groups out in the order of their keys. *)
Definition key_le (k1 k2 : GroupKey) : Prop :=
  let '(s1, t1, c1, a1) := k1 in
  let '(s2, t2, c2, a2) := k2 in
  s1 < s2 ∨ (s1 = s2 ∧
    (strict String.le t1 t2 ∨ (t1 = t2 ∧
      (strict String.le c1 c2 ∨ (c1 = c2 ∧ a1 ≤ a2))))).

Global Instance key_le_dec : RelDecision key_le.
Proof. intros [[[??]?]?] [[[??]?]?]. unfold key_le. apply _. Defined.

Definition group_keys (df : list Ticket) : list GroupKey :=
  merge_sort key_le (remove_dups (omap group_key df)).

Definition group_of (k : GroupKey) (df : list Ticket) : list Ticket :=
  filter (λ t, group_key t = Some k) df.

Record SummaryRow := mkSummaryRow {
  s_Seq : SeqCell;
  s_Type : option string;
  s_Category : option string;
  s_Admit : Z;
  Total_Tickets : Z;
  Tickets_Sold : Z;
  Total_Seats : Z;
  Seats_sold : Z;
  Total_Visitors : Z;
  Balance_Tickets : Z;
  Balance_Seats : Z;
  Balance_Visitors : Z
}.

Global Instance SummaryRow_eq_dec : EqDecision SummaryRow.
Proof. solve_decision. Defined.

(** The named aggregations of lines 94-96. *)
Definition agg_count (g : list Ticket) : Z := Z.of_nat (length g).
Definition agg_sold (g : list Ticket) : Z :=
  foldr Z.add 0 ((λ t, if Sold t then 1 else 0) <$> g).
Definition agg_visitors (g : list Ticket) : Z :=
  foldr Z.add 0 (Visitor_Seats <$> g).

(** Lines 93-103 for one group: the three aggregates, then the derived
    columns, each computed from the columns before it. *)
Definition summary_row (k : GroupKey) (df : list Ticket) : SummaryRow :=
  let '(seq, ty, cat, adm) := k in
  let g := group_of k df in
  let total_tickets := agg_count g in
  let tickets_sold := agg_sold g in
  let total_visitors := agg_visitors g in
  let total_seats := total_tickets * adm in
  let seats_sold := tickets_sold * adm in
  mkSummaryRow (SeqNum seq) (Some ty) (Some cat) adm
    total_tickets tickets_sold total_seats seats_sold total_visitors
    (total_tickets - tickets_sold)
    (total_seats - seats_sold)
    (seats_sold - total_visitors).

Definition grouped (df : list Ticket) : list SummaryRow :=
  (λ k, summary_row k df) <$> group_keys df.

(** [Series.sum()] of one column. *)
Definition col_sum (col : SummaryRow → Z) (summary : list SummaryRow) : Z :=
  foldr Z.add 0 (col <$> summary).

Definition seq_number (x : SeqCell) : Z :=
  match x with SeqNum z => z | _ => 0 end.

(** The dtype of [Visitor_Seats]: numbers in a table with rows, and the
    object dtype that [read_sql] gives every column of a table without rows.
    [fillna(0)] of line 38, the sum of line 96 and the subtraction of line 103
    keep that dtype, so it is also the dtype of [Total_Visitors] and
    [Balance_Visitors] in the summary. The other numeric columns are made
    numeric by [to_numeric], [astype(bool)] and [count]. *)
Definition visitors_numeric (df : list Ticket) : bool := bool_decide (df ≠ []).

(** The Total row in the final frame. A cell is a number, or NaN ([None]):
    [concat] fills with NaN the columns that the one-row frame [totals] does
    not have. *)
Record TotalRow := mkTotalRow {
  t_Seq : SeqCell;
  t_Type : option string;
  t_Category : option string;
  t_Admit : option Z;
  t_Total_Tickets : option Z;
  t_Tickets_Sold : option Z;
  t_Total_Seats : option Z;
  t_Seats_sold : option Z;
  t_Total_Visitors : option Z;
  t_Balance_Tickets : option Z;
  t_Balance_Seats : option Z;
  t_Balance_Visitors : option Z
}.

(** Line 110: [select_dtypes(include='number')] keeps the numeric columns,
    the two visitor columns among them when [visitors] says so, and [sum()]
    adds each of them up; [Type] and [Category] are never numeric. *)
Definition numeric_sums (visitors : bool) (summary : list SummaryRow) : TotalRow :=
  mkTotalRow (SeqNum (col_sum (seq_number ∘ s_Seq) summary)) None None
    (Some (col_sum s_Admit summary))
    (Some (col_sum Total_Tickets summary)) (Some (col_sum Tickets_Sold summary))
    (Some (col_sum Total_Seats summary)) (Some (col_sum Seats_sold summary))
    (if visitors then Some (col_sum Total_Visitors summary) else None)
    (Some (col_sum Balance_Tickets summary))
    (Some (col_sum Balance_Seats summary))
    (if visitors then Some (col_sum Balance_Visitors summary) else None).

Definition set_t_Seq (x : SeqCell) (r : TotalRow) : TotalRow :=
  mkTotalRow x (t_Type r) (t_Category r) (t_Admit r)
    (t_Total_Tickets r) (t_Tickets_Sold r) (t_Total_Seats r) (t_Seats_sold r)
    (t_Total_Visitors r) (t_Balance_Tickets r) (t_Balance_Seats r)
    (t_Balance_Visitors r).

(** Lines 110-111 for the summary of the table [df]. *)
Definition total_cells (df : list Ticket) (summary : list SummaryRow) : TotalRow :=
  set_t_Seq (SeqStr "Total") (numeric_sums (visitors_numeric df) summary).

(** A Total row put beside the group rows, whose numeric cells are all
    numbers: a NaN cell is read as 0. *)
Definition as_summary_row (r : TotalRow) : SummaryRow :=
  mkSummaryRow (t_Seq r) (t_Type r) (t_Category r) (default 0 (t_Admit r))
    (default 0 (t_Total_Tickets r)) (default 0 (t_Tickets_Sold r))
    (default 0 (t_Total_Seats r)) (default 0 (t_Seats_sold r))
    (default 0 (t_Total_Visitors r)) (default 0 (t_Balance_Tickets r))
    (default 0 (t_Balance_Seats r)) (default 0 (t_Balance_Visitors r)).


(** Line 109. *)
Definition summary (df : list Ticket) : option (list SummaryRow) :=
  custom_sort (Some s_Seq) (grouped df).

(** Line 113, as the list of the rows of the final frame, the Total row read
    by [as_summary_row]; [dropna(how='all')] drops nothing, no row of the
    summary being empty in all its columns. *)
Definition summary_final (df : list Ticket) : option (list SummaryRow) :=
  s ← summary df; Some (s ++ [as_summary_row (total_cells df s)]).

(** The Total row of a summary as a row of [summary_final], said from the
    summary alone: the sums of all its numeric columns. This is the row that
    [summary_final] ends with, since the summary of a table without rows has
    no rows and its sums are the 0 that a NaN cell is read as. *)
Definition totals (summary : list SummaryRow) : SummaryRow :=
  as_summary_row (set_t_Seq (SeqStr "Total") (numeric_sums true summary)).

(** ** Edit menu: recalculation of the derived columns (lines 229-237) *)

(** [str(row['Series'])]; an empty cell prints as [None]. *)
Definition series_str (x : option string) : string :=
  match x with Some s => s | None => "None" end.

(** Line 232: the unpacking of [map(int, s.split('-'))] into exactly two
    names; [None] is the ValueError of either step. *)
Definition parse_series (s : string) : option (Z * Z) :=
  match split_dash s with
  | [a; b] => start ← py_int a; end_ ← py_int b; Some (start, end_)
  | _ => None
  end.

Definition set_Alloc (v : option Z) (m : MenuRow) : MenuRow :=
  mkMenuRow (m_Seq m) (m_Type m) (m_Category m) (m_Series m) (m_Admit m)
            v (Total_Capacity m).
Definition set_Total_Capacity (v : option Z) (m : MenuRow) : MenuRow :=
  mkMenuRow (m_Seq m) (m_Type m) (m_Category m) (m_Series m) (m_Admit m)
            (Alloc m) v.

(** [Alloc] and [Total_Capacity] are integer columns of the menu table, held
    by pandas as 64-bit integers; a cell of them without a value is [None] in
    [MenuRow]. *)
Definition int64_fits (z : Z) : Prop := - 2 ^ 63 ≤ z < 2 ^ 63.

Global Instance int64_fits_dec z : Decision (int64_fits z).
Proof. unfold int64_fits. apply _. Defined.

(** [count * row['Admit']]; [None] is the TypeError of a product with
    [None]. *)
Definition times_admit (count : Z) (c : NumCell) : option Z :=
  match c with
  | Number a => Some (count * a)
  | Null => None
  end.

(** [edited_menu.at[index, col] = value] on a 64-bit integer column; [None] is
    the OverflowError for a Python integer out of the range of the column. *)
Definition at_write (set : option Z → MenuRow → MenuRow) (index : nat)
    (value : Z) (edited_menu : list MenuRow) : option (list MenuRow) :=
  if decide (int64_fits value)
  then Some (alter (set (Some value)) index edited_menu)
  else None.

(** The body of the loop for the pair [(index, row)] handed out by
    [iterrows]. An exception leaves the [try] block at the statement that
    raises it and [except: pass] goes on with the frame as it is by then:
    untouched when the Series does not parse or the write of Alloc raises,
    with Alloc alone written when the product or its write raises. *)
Definition recalc_at (index : nat) (row : MenuRow) (edited_menu : list MenuRow)
  : list MenuRow :=
  if contains_dash (series_str (m_Series row)) then
    match parse_series (series_str (m_Series row)) with
    | Some (start, end_) =>
        let count := (end_ - start) + 1 in
        match at_write set_Alloc index count edited_menu with
        | Some menu1 =>
            match times_admit count (m_Admit row) with
            | Some product =>
                match at_write set_Total_Capacity index product menu1 with
                | Some menu2 => menu2
                | None => menu1
                end
            | None => menu1
            end
        | None => edited_menu
        end
    | None => edited_menu
    end
  else edited_menu.

Fixpoint recalc_loop (rows : list (nat * MenuRow)) (edited_menu : list MenuRow)
  : list MenuRow :=
  match rows with
  | [] => edited_menu
  | (index, row) :: rest => recalc_loop rest (recalc_at index row edited_menu)
  end.

Definition recalculate (edited_menu : list MenuRow) : list MenuRow :=
  recalc_loop (imap pair edited_menu) edited_menu.

(** ** Notions used in the statements, and sample data *)

(** What a submitted form did: it found the first row of the id and rewrote
    that row alone. *)
Definition rewrote_row (tid : string) (tickets tickets' : list Ticket) : Prop :=
  ∃ idx t t', first_index tid tickets = Some idx ∧ tickets !! idx = Some t
              ∧ tickets' = <[idx := t']> tickets.

(** A small menu and ticket table on which the operations are run. *)
Definition sample_menu : list MenuRow :=
  [ mkMenuRow (SeqNum 1) "Public" "Gold" (Some "101-150") (Number 2) None None;
    mkMenuRow (SeqNum 0) "Guest" "Staff" (Some "bad") (Number 1) (Some 50) (Some 100) ].

Definition sample_tickets : list Ticket :=
  [ mkTicket "0007" "Public" "Gold" 4 (Some 1) false "" false 0 None;
    mkTicket "0008" "Public" "Gold" 4 (Some 1) true "Dana" false 0 (Some "09:00");
    mkTicket "0009" "Public" "Gold" 4 (Some 1) true "Eli" true 3 (Some "10:00");
    mkTicket "0010" "Guest" "Staff" 1 (Some 0) false "" false 0 None ].

(** The times read in the iterations of a bulk upload. *)
Definition sample_clock (i : nat) : string :=
  match i with O => "12:00" | _ => "12:01" end.

(** What the loop body makes of a row, seen from the row alone. *)
Definition derive (row : MenuRow) : MenuRow :=
  if contains_dash (series_str (m_Series row)) then
    match parse_series (series_str (m_Series row)) with
    | Some (start, end_) =>
        let count := end_ - start + 1 in
        if decide (int64_fits count) then
          let row1 := set_Alloc (Some count) row in
          match times_admit count (m_Admit row) with
          | Some product =>
              if decide (int64_fits product)
              then set_Total_Capacity (Some product) row1 else row1
          | None => row1
          end
        else row
    | None => row
    end
  else row.

(** Plain decimal numbers: strings of the digits 0 to 9, and their value. *)
Fixpoint all_digits (s : string) : bool :=
  match s with
  | EmptyString => true
  | String c r => bool_decide (is_Some (Ascii.is_nat c)) && all_digits r
  end.

Fixpoint decimal (acc : Z) (s : string) : Z :=
  match s with
  | EmptyString => acc
  | String c r => decimal (10 * acc + Z.of_nat (default 0%nat (Ascii.is_nat c))) r
  end.

(** ** The pattern of a Series

    Said without the parsing steps of the script: a Series of the pattern is
    two whole numbers around one dash. A whole number, as [int] reads one
    from text, is a run of decimal digits, single underscores allowed
    between two digits, after an optional plus sign, with white space
    allowed before and after; a minus sign is no part of it, since it would
    split the Series once more. *)






(** A ticket belongs to the group of the four key values. *)
Definition in_group (seq : Z) (ty cat : string) (adm : Z) (t : Ticket) : Prop :=
  Seq t = Some seq ∧ Type_ t = ty ∧ Category t = cat ∧ Admit t = adm.

Global Instance in_group_dec seq ty cat adm t : Decision (in_group seq ty cat adm t).
Proof. unfold in_group. apply _. Defined.

(** The key columns of a summary row. *)
Definition row_key (r : SummaryRow) : SeqCell * option string * option string * Z :=
  (s_Seq r, s_Type r, s_Category r, s_Admit r).

(** A [Seq] cell that [custom_sort] treats as zero. *)
Definition zero_seq (x : SeqCell) : Prop := x = SeqNum 0 ∨ x = SeqStr "0".

(** Rows with a zero [Seq] come after the rows with a positive [Seq] below
    [bound]. *)
Definition zero_after_positive_below {A} (bound : option Z) (col : A → SeqCell)
    (out : list A) : Prop :=
  ∀ i j a b n,
    out !! i = Some a → out !! j = Some b →
    zero_seq (col a) → col b = SeqNum n → 0 < n →
    from_option (λ m, n < m) True bound →
    (j < i)%nat.

(** Rows with a positive [Seq] are in ascending order of [Seq]. *)
Definition positive_ascending {A} (col : A → SeqCell) (out : list A) : Prop :=
  ∀ i j a b m n,
    (i < j)%nat → out !! i = Some a → out !! j = Some b →
    col a = SeqNum m → col b = SeqNum n → 0 < m → 0 < n → m ≤ n.

(** Two tickets whose [Seq] values are 0 and 11. *)
Definition late_seq_tickets : list Ticket :=
  [ mkTicket "0001" "Public" "Overflow" 1 (Some 0) false "" false 0 None;
    mkTicket "0002" "Public" "Balcony" 1 (Some 11) false "" false 0 None ].

(** The invariant of the ticket table: no ticket is checked in without being
    sold. *)
Definition visited_implies_sold (tickets : list Ticket) : Prop :=
  Forall (λ t, Visited t = true → Sold t = true) tickets.

Global Instance visited_implies_sold_dec tickets : Decision (visited_implies_sold tickets).
Proof. unfold visited_implies_sold. apply _. Defined.

(** One user action on the ticket table. *)
Inductive Action :=
  | ManualSale (ty : TypeChoice) (cat tid cust now : string)
  | BulkSale (clock : nat → string) (up_df : list UploadRow)
  | ReverseSale (tid : string)
  | Entry (ty : TypeChoice) (cat tid : string) (v : Z) (now : string)
  | ReverseEntry (tid : string)
  | Reset (admin_pass : string).

(** The table after the action; an action that cannot be submitted leaves it
    as it is. *)
Definition run (menu : list MenuRow) (a : Action) (tickets : list Ticket) : list Ticket :=
  match a with
  | ManualSale ty cat tid cust now =>
      default tickets (manual_sale menu ty cat tid cust now tickets)
  | BulkSale clock up_df => bulk_sale clock up_df tickets
  | ReverseSale tid => default tickets (reverse_sale tid tickets)
  | Entry ty cat tid v now => default tickets (check_in menu ty cat tid v now tickets)
  | ReverseEntry tid => default tickets (reverse_entry tid tickets)
  | Reset admin_pass => default tickets (reset_database admin_pass tickets)
  end.

(** A session: the actions one after the other. *)
Definition run_all (menu : list MenuRow) (actions : list Action) (tickets : list Ticket)
  : list Ticket :=
  foldl (λ tk a, run menu a tk) tickets actions.

(** The reversal of the sale of a ticket that has been checked in. *)
Definition reverses_visited (a : Action) (tickets : list Ticket) : Prop :=
  match a with
  | ReverseSale tid => tid ∈ visited_list tickets
  | _ => False
  end.

(** A run of actions in which no sale of a checked-in ticket is reversed. *)
Fixpoint never_reverses_visited (menu : list MenuRow) (actions : list Action)
    (tickets : list Ticket) : Prop :=
  match actions with
  | [] => True
  | a :: rest =>
      ¬ reverses_visited a tickets ∧ never_reverses_visited menu rest (run menu a tickets)
  end.

(** ** Loading (lines 33-45) *)

(** A row of the [tickets] table as [read_sql] hands it over. [raw_TicketID]
    is the cell printed by [astype(str)]; [raw_Admit] and [raw_Seq] are the
    cells after [pd.to_numeric(errors='coerce')], [None] for a missing or
    non-numeric cell; in the other nullable columns [None] is NULL. *)
Record RawTicket := mkRawTicket {
  raw_TicketID : string;
  raw_Type : string;
  raw_Category : string;
  raw_Admit : option Z;
  raw_Seq : option Z;
  raw_Sold : option bool;
  raw_Customer : option string;
  raw_Visited : option bool;
  raw_Visitor_Seats : option Z;
  raw_Timestamp : option string
}.

(** Lines 37-43 on one row. *)
Definition clean_row (r : RawTicket) : Ticket :=
  mkTicket (zfill 4 (raw_TicketID r)) (raw_Type r) (raw_Category r)
           (default 1 (raw_Admit r)) (raw_Seq r)
           (default false (raw_Sold r)) (default "" (raw_Customer r))
           (default false (raw_Visited r)) (default 0 (raw_Visitor_Seats r))
           (raw_Timestamp r).

Definition load_tickets (rows : list RawTicket) : list Ticket := clean_row <$> rows.

(** A ticket row written back without any missing cell. *)
Definition raw_of (t : Ticket) : RawTicket :=
  mkRawTicket (TicketID t) (Type_ t) (Category t) (Some (Admit t)) (Seq t)
              (Some (Sold t)) (Some (Customer t)) (Some (Visited t))
              (Some (Visitor_Seats t)) (Timestamp t).

(** ** Recent sales and recent visitor entries (lines 171-175, 216-220) *)

(** [sort_values('Timestamp', ascending=False)]: later timestamps first, rows
    without a timestamp last. *)
Definition timestamp_desc (t1 t2 : Ticket) : Prop :=
  match Timestamp t1, Timestamp t2 with
  | Some a, Some b => String.le b a
  | Some _, None => True
  | None, Some _ => False
  | None, None => True
  end.

Global Instance timestamp_desc_dec : RelDecision timestamp_desc.
Proof.
  intros t1 t2. unfold timestamp_desc.
  destruct (Timestamp t1), (Timestamp t2); apply _.
Defined.

(** The selected rows, sorted, with the [Sno] column in front; pandas leaves
    the order of rows with equal timestamps open, the model keeps their former
    order. *)
Definition numbered_history (P : Ticket → Prop) `{!∀ t, Decision (P t)}
    (tickets : list Ticket) : list (Z * Ticket) :=
  let recent := merge_sort timestamp_desc (filter P tickets) in
  zip (Z.of_nat <$> seq 1 (length recent)) recent.

Definition recent_sales (tickets : list Ticket) : list (Z * Ticket) :=
  numbered_history (λ t, Sold t = true) tickets.

Definition recent_visitors (tickets : list Ticket) : list (Z * Ticket) :=
  numbered_history (λ t, Visited t = true) tickets.

(** ** More notions used in the statements *)

(** The columns that say which ticket a row is and where it is grouped. *)
Definition identity (t : Ticket) : string * string * string * Z * option Z :=
  (TicketID t, Type_ t, Category t, Admit t, Seq t).

(** The other invariants of a ticket row. *)
Definition seats_within_admit (t : Ticket) : Prop :=
  0 ≤ Visitor_Seats t ≤ Admit t.
Definition unsold_is_blank (t : Ticket) : Prop :=
  Sold t = false → Customer t = "" ∧ Timestamp t = None.
Definition unvisited_has_no_seats (t : Ticket) : Prop :=
  Visited t = false → Visitor_Seats t = 0.

Definition row_invariants (tickets : list Ticket) : Prop :=
  Forall (λ t, seats_within_admit t ∧ unsold_is_blank t ∧ unvisited_has_no_seats t)
         tickets.

Global Instance seats_within_admit_dec t : Decision (seats_within_admit t).
Proof. unfold seats_within_admit. apply _. Defined.
Global Instance unsold_is_blank_dec t : Decision (unsold_is_blank t).
Proof. unfold unsold_is_blank. apply _. Defined.
Global Instance unvisited_has_no_seats_dec t : Decision (unvisited_has_no_seats t).
Proof. unfold unvisited_has_no_seats. apply _. Defined.
Global Instance row_invariants_dec tickets : Decision (row_invariants tickets).
Proof. unfold row_invariants. apply _. Defined.

(** What the dashboard says about the size of a group. *)
Definition group_size (r : SummaryRow)
  : (SeqCell * option string * option string * Z) * Z * Z :=
  (row_key r, Total_Tickets r, Total_Seats r).

(** The key columns of the summary row that counts a ticket; none when the
    ticket has no Seq. *)
Definition ticket_row_key (t : Ticket)
  : option (SeqCell * option string * option string * Z) :=
  (λ s, (SeqNum s, Some (Type_ t), Some (Category t), Admit t)) <$> Seq t.

(** A summary row after the number of sold tickets of its group went up by
    [dsold] and the visitor seats by [dvis], the group itself staying as it
    is. *)
Definition shifted (dsold dvis : Z) (r : SummaryRow) : SummaryRow :=
  mkSummaryRow (s_Seq r) (s_Type r) (s_Category r) (s_Admit r)
    (Total_Tickets r) (Tickets_Sold r + dsold)
    (Total_Seats r) (Seats_sold r + dsold * s_Admit r)
    (Total_Visitors r + dvis)
    (Balance_Tickets r - dsold)
    (Balance_Seats r - dsold * s_Admit r)
    (Balance_Visitors r + dsold * s_Admit r - dvis).

(** The summary rows with the row of the ticket's group shifted. *)
Definition shift_group_of (t : Ticket) (dsold dvis : Z) (rows : list SummaryRow)
  : list SummaryRow :=
  (λ r, if decide (Some (row_key r) = ticket_row_key t) then shifted dsold dvis r else r)
    <$> rows.

(** The columns of a menu row that the recalculation reads or leaves alone. *)
Definition menu_entry (m : MenuRow)
  : SeqCell * string * string * option string * NumCell :=
  (m_Seq m, m_Type m, m_Category m, m_Series m, m_Admit m).

(** Two sold tickets of one category that differ in Admit, none of them
    checked in. *)
Definition two_eligible_tickets : list Ticket :=
  [ mkTicket "0021" "Public" "Gold" 4 (Some 1) true "Fay" false 0 (Some "09:00");
    mkTicket "0022" "Public" "Gold" 2 (Some 1) true "Gus" false 0 (Some "09:05") ].

(** * Properties *)

(** ** Cell writes at one row *)

Section row_writes.
Context {A : Type}.
Implicit Types (l : list A) (f g h : A → A).

Lemma alter_lookup_insert f l i x :
  l !! i = Some x → alter f i l = <[i := f x]> l.
Proof.
  intros Hi. apply list_eq. intros j.
  destruct (decide (i = j)) as [<-|Hne].
  - rewrite list_lookup_alter_eq, Hi. simpl.
    symmetry. apply list_lookup_insert_eq. by eapply lookup_lt_Some.
  - by rewrite list_lookup_alter_ne, list_lookup_insert_ne.
Qed.

Lemma alter_thrice f g h l i x :
  l !! i = Some x →
  alter f i (alter g i (alter h i l)) = <[i := f (g (h x))]> l.
Proof.
  intros Hi. rewrite !list_alter_alter_eq. by rewrite (alter_lookup_insert _ _ _ x).
Qed.

Lemma alter_twice f g l i x :
  l !! i = Some x → alter f i (alter g i l) = <[i := f (g x)]> l.
Proof.
  intros Hi. rewrite list_alter_alter_eq. by rewrite (alter_lookup_insert _ _ _ x).
Qed.
End row_writes.

(** ** The row an id selects *)

Lemma first_index_Some tid tickets idx :
  first_index tid tickets = Some idx ↔
  ∃ t, tickets !! idx = Some t ∧ TicketID t = tid ∧
       ∀ j t', tickets !! j = Some t' → (j < idx)%nat → TicketID t' ≠ tid.
Proof.
  unfold first_index. split.
  - intros ([i t] & Hfind & ->)%fmap_Some. simpl.
    apply list_find_Some in Hfind as (? & ? & ?). eauto.
  - intros (t & Hi & Hid & Hleast). apply fmap_Some. exists (idx, t).
    split; [|done]. apply list_find_Some. eauto.
Qed.

Lemma first_index_find tid tickets idx :
  first_index tid tickets = Some idx →
  ∃ t, list_find (λ t, TicketID t = tid) tickets = Some (idx, t)
       ∧ tickets !! idx = Some t ∧ TicketID t = tid.
Proof.
  unfold first_index. intros ([i t] & Hfind & ->)%fmap_Some. simpl.
  exists t. split; [done|].
  apply list_find_Some in Hfind as (? & ? & ?). eauto.
Qed.

(** With unique ids every row is the first one of its id. *)
Lemma unique_first_index tickets i t :
  NoDup (TicketID <$> tickets) →
  tickets !! i = Some t →
  first_index (TicketID t) tickets = Some i.
Proof.
  intros Hnd Hi. apply first_index_Some. exists t. split_and!; [done..|].
  intros j t' Hj Hlt Heq.
  assert (j = i); [|lia].
  eapply NoDup_lookup; [exact Hnd|..].
  - rewrite list_lookup_fmap, Hj. simpl. by rewrite Heq.
  - by rewrite list_lookup_fmap, Hi.
Qed.

Lemma elem_of_offered (P : Ticket → Prop) `{!∀ t, Decision (P t)}
    (tickets : list Ticket) t :
  t ∈ tickets → P t → TicketID t ∈ TicketID <$> filter P tickets.
Proof.
  intros Hin HP. apply list_elem_of_fmap_2. by apply list_elem_of_filter.
Qed.

Lemma offered_first_index (P : Ticket → Prop) `{!∀ t, Decision (P t)}
    (tickets : list Ticket) tid :
  tid ∈ TicketID <$> filter P tickets → is_Some (first_index tid tickets).
Proof.
  intros (t & -> & [_ Hin]%list_elem_of_filter)%list_elem_of_fmap.
  unfold first_index. apply fmap_is_Some.
  by apply (list_find_elem_of (λ t', TicketID t' = TicketID t) tickets t).
Qed.

(** ** The four single-ticket mutations, at the row they select *)

Lemma sale_mutation_at tid cust now tickets idx t :
  first_index tid tickets = Some idx → tickets !! idx = Some t →
  sale_mutation tid cust now tickets =
    Some (<[idx := set_Timestamp (Some now) (set_Customer cust (set_Sold true t))]> tickets).
Proof.
  intros Hidx Hi. unfold sale_mutation. rewrite Hidx. simpl.
  by rewrite (alter_thrice _ _ _ _ _ t).
Qed.

Lemma reverse_sale_mutation_at tid tickets idx t :
  first_index tid tickets = Some idx → tickets !! idx = Some t →
  reverse_sale_mutation tid tickets =
    Some (<[idx := set_Timestamp None (set_Customer "" (set_Sold false t))]> tickets).
Proof.
  intros Hidx Hi. unfold reverse_sale_mutation. rewrite Hidx. simpl.
  by rewrite (alter_thrice _ _ _ _ _ t).
Qed.

Lemma checkin_mutation_at tid v now tickets idx t :
  first_index tid tickets = Some idx → tickets !! idx = Some t →
  checkin_mutation tid v now tickets =
    Some (<[idx := set_Timestamp (Some now) (set_Visitor_Seats v (set_Visited true t))]> tickets).
Proof.
  intros Hidx Hi. unfold checkin_mutation. rewrite Hidx. simpl.
  by rewrite (alter_thrice _ _ _ _ _ t).
Qed.

Lemma reverse_entry_mutation_at tid tickets idx t :
  first_index tid tickets = Some idx → tickets !! idx = Some t →
  reverse_entry_mutation tid tickets =
    Some (<[idx := set_Visitor_Seats 0 (set_Visited false t)]> tickets).
Proof.
  intros Hidx Hi. unfold reverse_entry_mutation. rewrite Hidx. simpl.
  by rewrite (alter_twice _ _ _ _ t).
Qed.

Lemma manual_sale_rewrote menu ty cat tid cust now tickets tickets' :
  manual_sale menu ty cat tid cust now tickets = Some tickets' →
  rewrote_row tid tickets tickets'.
Proof.
  unfold manual_sale. case_decide; [|done]. intros Hm.
  destruct (first_index tid tickets) as [idx|] eqn:Hidx;
    [|by unfold sale_mutation in Hm; rewrite Hidx in Hm].
  destruct (first_index_find _ _ _ Hidx) as (t & _ & Hi & _).
  rewrite (sale_mutation_at _ _ _ _ _ _ Hidx Hi) in Hm.
  injection Hm as <-. by eexists idx, t, _.
Qed.

Lemma reverse_sale_rewrote tid tickets tickets' :
  reverse_sale tid tickets = Some tickets' → rewrote_row tid tickets tickets'.
Proof.
  unfold reverse_sale. case_decide; [|done]. intros Hm.
  destruct (first_index tid tickets) as [idx|] eqn:Hidx;
    [|by unfold reverse_sale_mutation in Hm; rewrite Hidx in Hm].
  destruct (first_index_find _ _ _ Hidx) as (t & _ & Hi & _).
  rewrite (reverse_sale_mutation_at _ _ _ _ Hidx Hi) in Hm.
  injection Hm as <-. by eexists idx, t, _.
Qed.

Lemma check_in_rewrote menu ty cat tid v now tickets tickets' :
  check_in menu ty cat tid v now tickets = Some tickets' →
  rewrote_row tid tickets tickets'.
Proof.
  unfold check_in. case_decide; [|done]. intros Hm.
  destruct (confirmed_visitors ty cat tid v tickets) as [v_count|]; [|done].
  simpl in Hm.
  destruct (first_index tid tickets) as [idx|] eqn:Hidx;
    [|by unfold checkin_mutation in Hm; rewrite Hidx in Hm].
  destruct (first_index_find _ _ _ Hidx) as (t & _ & Hi & _).
  rewrite (checkin_mutation_at _ _ _ _ _ _ Hidx Hi) in Hm.
  injection Hm as <-. by eexists idx, t, _.
Qed.

Lemma reverse_entry_rewrote tid tickets tickets' :
  reverse_entry tid tickets = Some tickets' → rewrote_row tid tickets tickets'.
Proof.
  unfold reverse_entry. case_decide; [|done]. intros Hm.
  destruct (first_index tid tickets) as [idx|] eqn:Hidx;
    [|by unfold reverse_entry_mutation in Hm; rewrite Hidx in Hm].
  destruct (first_index_find _ _ _ Hidx) as (t & _ & Hi & _).
  rewrite (reverse_entry_mutation_at _ _ _ _ Hidx Hi) in Hm.
  injection Hm as <-. by eexists idx, t, _.
Qed.

Lemma rewrote_row_frame tid tickets tickets' :
  rewrote_row tid tickets tickets' →
  ∃ idx, first_index tid tickets = Some idx
         ∧ length tickets' = length tickets
         ∧ ∀ j, j ≠ idx → tickets' !! j = tickets !! j.
Proof.
  intros (idx & t & t' & Hidx & Hi & ->). exists idx. split_and!; [done|..].
  - apply length_insert.
  - intros j Hj. by apply list_lookup_insert_ne.
Qed.

Lemma first_index_insert tid tickets idx t' :
  first_index tid tickets = Some idx → TicketID t' = tid →
  first_index tid (<[idx := t']> tickets) = Some idx.
Proof.
  intros (t & Hi & Hid & Hleast)%first_index_Some Hid'.
  apply first_index_Some. exists t'. split_and!; [|done|].
  - apply list_lookup_insert_eq. by eapply lookup_lt_Some.
  - intros j u Hj Hlt. rewrite list_lookup_insert_ne in Hj by lia. eauto.
Qed.

Lemma max_v_at tid tickets idx t :
  first_index tid tickets = Some idx → tickets !! idx = Some t →
  max_v tid tickets = Some (Admit t).
Proof.
  intros (u & Hfind & Hu & _)%first_index_find Hi.
  unfold max_v. rewrite Hfind. simpl. congruence.
Qed.

Lemma sample_tickets_unique : NoDup (TicketID <$> sample_tickets).
Proof. compute_done. Defined.

Lemma sample_gold_offered : "Gold" ∈ category_options sample_menu Public.
Proof. compute_done. Defined.

(** ** Frame of the single-ticket mutations *)

(** C10. A manual sale, a sale reversal, a check-in or a check-in reversal that
    was submitted for a ticket id rewrote the first row carrying that id and
    left every other row of the table as it was, the number of rows included. *)
Theorem single_ticket_mutation_frame menu ty cat tid cust v now tickets tickets' :
  manual_sale menu ty cat tid cust now tickets = Some tickets'
  ∨ reverse_sale tid tickets = Some tickets'
  ∨ check_in menu ty cat tid v now tickets = Some tickets'
  ∨ reverse_entry tid tickets = Some tickets' →
  ∃ idx, first_index tid tickets = Some idx
         ∧ length tickets' = length tickets
         ∧ ∀ j, j ≠ idx → tickets' !! j = tickets !! j.
Proof.
  intros H. apply rewrote_row_frame.
  destruct H as [H|[H|[H|H]]];
    eauto using manual_sale_rewrote, reverse_sale_rewrote,
                check_in_rewrote, reverse_entry_rewrote.
Qed.

Lemma single_ticket_mutation_frame_witness :
  ∃ idx, first_index "0008" sample_tickets = Some idx
         ∧ length (<[1%nat := mkTicket "0008" "Public" "Gold" 4 (Some 1) true "Dana"
                                   true 2 (Some "11:00")]> sample_tickets)
           = length sample_tickets
         ∧ ∀ j, j ≠ idx →
             <[1%nat := mkTicket "0008" "Public" "Gold" 4 (Some 1) true "Dana"
                                 true 2 (Some "11:00")]> sample_tickets !! j
             = sample_tickets !! j.
Proof.
  apply (single_ticket_mutation_frame sample_menu Public "Gold" "0008" "" 2 "11:00").
  right. right. left. vm_compute. reflexivity.
Defined.

(** ** Sale and reversal *)

(** C6. With unique ticket ids, a ticket that is not sold and belongs to a
    category offered by the menu can be sold by the manual form, and reversing
    that sale leaves its row with Sold false, an empty Customer and no
    Timestamp, every other column (and every other row) as before the sale;
    when the row had the defaults of an unsold ticket, the table is the
    original table again. *)
Theorem sale_then_reversal_roundtrip menu ty cat cust now tickets i t :
  NoDup (TicketID <$> tickets) →
  tickets !! i = Some t →
  Type_ t = type_label ty → Category t = cat → cat ∈ category_options menu ty →
  Sold t = false → Visited t = false → Visitor_Seats t = 0 →
  ∃ sold restored,
    manual_sale menu ty cat (TicketID t) cust now tickets = Some sold
    ∧ reverse_sale (TicketID t) sold = Some restored
    ∧ restored = <[i := mkTicket (TicketID t) (Type_ t) (Category t) (Admit t) (Seq t)
                                false "" false 0 None]> tickets
    ∧ (Customer t = "" → Timestamp t = None → restored = tickets).
Proof.
  intros Hnd Hi Hty Hcat Hmenu Hsold Hvis Hseats.
  pose proof (unique_first_index _ _ _ Hnd Hi) as Hidx.
  set (t1 := set_Timestamp (Some now) (set_Customer cust (set_Sold true t))).
  exists (<[i := t1]> tickets). eexists. split_and!.
  - unfold manual_sale. rewrite decide_True.
    + by apply sale_mutation_at.
    + split; [done|]. apply elem_of_offered; [|done].
      by eapply list_elem_of_lookup_2.
  - unfold reverse_sale.
    assert (Hi1 : <[i := t1]> tickets !! i = Some t1).
    { apply list_lookup_insert_eq. by eapply lookup_lt_Some. }
    rewrite decide_True.
    + apply reverse_sale_mutation_at; [|exact Hi1]. by apply first_index_insert.
    + change (TicketID t) with (TicketID t1).
      apply elem_of_offered; [|done]. by eapply list_elem_of_lookup_2.
  - rewrite list_insert_insert_eq. unfold t1.
    unfold set_Timestamp, set_Customer, set_Sold. simpl.
    by rewrite Hvis, Hseats.
  - intros Hc Hts. rewrite list_insert_insert_eq. apply list_insert_id.
    rewrite Hi. f_equal. destruct t; simpl in *. by subst.
Qed.

Lemma sale_then_reversal_roundtrip_witness :
  ∃ sold,
    manual_sale sample_menu Public "Gold" "0007" "Alice" "12:00" sample_tickets = Some sold
    ∧ reverse_sale "0007" sold = Some sample_tickets.
Proof.
  destruct (sale_then_reversal_roundtrip sample_menu Public "Gold" "Alice" "12:00"
              sample_tickets 0
              (mkTicket "0007" "Public" "Gold" 4 (Some 1) false "" false 0 None)
              sample_tickets_unique eq_refl eq_refl eq_refl sample_gold_offered
              eq_refl eq_refl eq_refl)
    as (sold & restored & Hsale & Hrev & _ & Hsame).
  exists sold. split; [exact Hsale|].
  simpl in Hrev. rewrite Hrev. f_equal. apply Hsame; reflexivity.
Defined.

(** ** Check-in and its reversal *)

(** C7. The code does not write the count that was entered when the selected
    ticket is not the one the form was rendered for and differs from it in
    Admit. In [two_eligible_tickets] the form shows a number input built for
    ticket 0021 (Admit 4); for the selected ticket 0022 (Admit 2) the entered
    count 1, which lies in [1, 2], is written as 2, and the entered count 4,
    which exceeds its Admit, is not refused but written as 2 as well. *)
Theorem check_in_writes_default_not_entered :
  NoDup (TicketID <$> two_eligible_tickets)
  ∧ elig Public "Gold" two_eligible_tickets = ["0021"; "0022"]
  ∧ check_in sample_menu Public "Gold" "0022" 1 "11:00" two_eligible_tickets
    = Some (<[1%nat := mkTicket "0022" "Public" "Gold" 2 (Some 1) true "Gus" true 2
                                (Some "11:00")]> two_eligible_tickets)
  ∧ check_in sample_menu Public "Gold" "0022" 4 "11:00" two_eligible_tickets
    = Some (<[1%nat := mkTicket "0022" "Public" "Gold" 2 (Some 1) true "Gus" true 2
                                (Some "11:00")]> two_eligible_tickets).
Proof. split_and!; [compute_done|by vm_compute..]. Qed.

(** C8. With unique ticket ids, reversing the check-in of a visited ticket
    sets Visited to false and Visitor_Seats to 0 in its row and changes no
    other column of it: Timestamp, Sold, Customer and the rest keep their
    values (the other rows too). *)
Theorem reverse_entry_effect tickets i t :
  NoDup (TicketID <$> tickets) →
  tickets !! i = Some t →
  Visited t = true →
  reverse_entry (TicketID t) tickets =
    Some (<[i := mkTicket (TicketID t) (Type_ t) (Category t) (Admit t) (Seq t)
                          (Sold t) (Customer t) false 0 (Timestamp t)]> tickets).
Proof.
  intros Hnd Hi Hvis.
  pose proof (unique_first_index _ _ _ Hnd Hi) as Hidx.
  unfold reverse_entry. rewrite decide_True.
  - by rewrite (reverse_entry_mutation_at _ _ _ _ Hidx Hi).
  - apply elem_of_offered; [|done]. by eapply list_elem_of_lookup_2.
Qed.

Lemma reverse_entry_effect_witness :
  reverse_entry "0009" sample_tickets =
    Some (<[2%nat := mkTicket "0009" "Public" "Gold" 4 (Some 1) true "Eli" false 0
                              (Some "10:00")]> sample_tickets).
Proof.
  exact (reverse_entry_effect sample_tickets 2
           (mkTicket "0009" "Public" "Gold" 4 (Some 1) true "Eli" true 3 (Some "10:00"))
           sample_tickets_unique eq_refl eq_refl).
Defined.

(** ** Bulk sale *)

Lemma bulk_step_cases now row tickets :
  (∃ idx t, list_find (λ t, TicketID t = up_TicketID row ∧ Sold t = false) tickets
              = Some (idx, t)
            ∧ bulk_step now row tickets =
                <[idx := set_Timestamp (Some now)
                           (set_Customer (up_CustomerName row) (set_Sold true t))]> tickets)
  ∨ (list_find (λ t, TicketID t = up_TicketID row ∧ Sold t = false) tickets = None
     ∧ bulk_step now row tickets = tickets).
Proof.
  unfold bulk_step.
  destruct (list_find _ tickets) as [[idx t]|] eqn:Hfind; [left|right; done].
  exists idx, t. split; [done|].
  apply list_find_Some in Hfind as (Hi & _ & _).
  by rewrite (alter_thrice _ _ _ _ _ t).
Qed.

Lemma bulk_step_ids now row tickets :
  TicketID <$> bulk_step now row tickets = TicketID <$> tickets.
Proof.
  destruct (bulk_step_cases now row tickets) as [(idx & t & Hfind & ->)|[_ ->]]; [|done].
  apply list_find_Some in Hfind as (Hi & _ & _).
  rewrite list_fmap_insert. apply list_insert_id.
  by rewrite list_lookup_fmap, Hi.
Qed.

(** With unique ids, once a row of the sheet has been processed no ticket of
    its id is left unsold. *)
Lemma bulk_step_settles now row tickets u :
  NoDup (TicketID <$> tickets) →
  u ∈ bulk_step now row tickets → TicketID u = up_TicketID row → Sold u = true.
Proof.
  intros Hnd Hin Hid.
  destruct (bulk_step_cases now row tickets) as [(idx & t & Hfind & Hstep)|[Hfind Hstep]];
    rewrite Hstep in Hin.
  - apply list_find_Some in Hfind as (Hi & [Ht _] & _).
    apply list_elem_of_lookup in Hin as [j Hj].
    destruct (decide (idx = j)) as [<-|Hne].
    + rewrite list_lookup_insert_eq in Hj by (by eapply lookup_lt_Some).
      by injection Hj as <-.
    + rewrite list_lookup_insert_ne in Hj by done.
      destruct Hne. eapply NoDup_lookup; [exact Hnd|..].
      * by rewrite list_lookup_fmap, Hi.
      * rewrite list_lookup_fmap, Hj. simpl. congruence.
  - rewrite list_find_None, Forall_forall in Hfind.
    specialize (Hfind u Hin). destruct (Sold u); [done|]. by destruct Hfind.
Qed.

Lemma bulk_step_noop now row tickets :
  (∀ t, t ∈ tickets → TicketID t = up_TicketID row → Sold t = true) →
  bulk_step now row tickets = tickets.
Proof.
  intros Hall.
  destruct (bulk_step_cases now row tickets) as [(idx & t & Hfind & _)|[_ ->]]; [|done].
  apply list_find_Some in Hfind as (Hi & [Hid Hs] & _).
  apply list_elem_of_lookup_2 in Hi. specialize (Hall t Hi Hid). congruence.
Qed.

(** A step never takes a sale back. *)
Lemma bulk_step_keeps_sold now row tickets u :
  u ∈ bulk_step now row tickets →
  ∃ t, t ∈ tickets ∧ TicketID t = TicketID u ∧ (Sold t = true → Sold u = true).
Proof.
  intros Hin.
  destruct (bulk_step_cases now row tickets) as [(idx & t & Hfind & Hstep)|[_ Hstep]];
    rewrite Hstep in Hin; [|by exists u].
  apply list_find_Some in Hfind as (Hi & _ & _).
  apply list_elem_of_lookup in Hin as [j Hj].
  destruct (decide (idx = j)) as [<-|Hne].
  - rewrite list_lookup_insert_eq in Hj by (by eapply lookup_lt_Some).
    injection Hj as <-. exists t. split_and!; [by eapply list_elem_of_lookup_2|done..].
  - rewrite list_lookup_insert_ne in Hj by done.
    exists u. split_and!; [by eapply list_elem_of_lookup_2|done..].
Qed.

Lemma bulk_loop_app clock i rows1 rows2 tickets :
  bulk_loop clock i (rows1 ++ rows2) tickets =
  bulk_loop clock (i + length rows1) rows2 (bulk_loop clock i rows1 tickets).
Proof.
  revert i tickets. induction rows1 as [|r rows1 IH]; intros i tickets; simpl.
  - by rewrite Nat.add_0_r.
  - rewrite IH. f_equal. lia.
Qed.

Lemma bulk_loop_ids clock i rows tickets :
  TicketID <$> bulk_loop clock i rows tickets = TicketID <$> tickets.
Proof.
  revert i tickets. induction rows as [|r rows IH]; intros i tickets; simpl; [done|].
  by rewrite IH, bulk_step_ids.
Qed.

Lemma bulk_loop_keeps_sold clock i rows tickets u :
  u ∈ bulk_loop clock i rows tickets →
  ∃ t, t ∈ tickets ∧ TicketID t = TicketID u ∧ (Sold t = true → Sold u = true).
Proof.
  revert i tickets. induction rows as [|r rows IH]; intros i tickets; simpl.
  - intros Hin. by exists u.
  - intros (t1 & Hin1 & Hid1 & Hs1)%IH.
    apply bulk_step_keeps_sold in Hin1 as (t & Hin & Hid & Hs).
    exists t. split_and!; [done|congruence|auto].
Qed.

(** With unique ids, an id that occurred in the part of the sheet already
    processed has no unsold ticket left. *)
Lemma bulk_loop_settles clock i rows tickets u tid :
  NoDup (TicketID <$> tickets) →
  tid ∈ up_TicketID <$> rows →
  u ∈ bulk_loop clock i rows tickets → TicketID u = tid → Sold u = true.
Proof.
  revert i tickets. induction rows as [|r rows IH]; intros i tickets Hnd Hocc Hin Hid.
  - by apply elem_of_nil in Hocc.
  - simpl in *. apply elem_of_cons in Hocc as [->|Hocc].
    + apply bulk_loop_keeps_sold in Hin as (t & Hin & Hid' & Hs).
      apply Hs. eapply bulk_step_settles; [done..|congruence].
    + eapply IH; [|done..]. by rewrite bulk_step_ids.
Qed.

Lemma bulk_sale_snoc clock pre row tickets :
  bulk_sale clock (pre ++ [row]) tickets =
  bulk_step (clock (length pre)) (normalize_upload row) (bulk_sale clock pre tickets).
Proof.
  unfold bulk_sale. rewrite fmap_app, bulk_loop_app. simpl.
  by rewrite length_fmap.
Qed.

(** C5. The bulk loop decides row by row. With unique ticket ids, the row
    processed after the rows [pre], its id padded by zfill(4): sells the
    ticket of that id when it is not sold at that point (Sold true, Customer
    the row's CustomerName, Timestamp the time of this iteration, the other
    columns and rows kept); changes nothing when no ticket has the id or the
    ticket is sold already; in particular changes nothing when the id occurred
    earlier in the sheet; and in no case touches a ticket of another id. *)
Theorem bulk_sale_row_by_row clock pre row tickets :
  NoDup (TicketID <$> tickets) →
  let before := bulk_sale clock pre tickets in
  let after := bulk_sale clock (pre ++ [row]) tickets in
  let tid := zfill 4 (up_TicketID row) in
  let now := clock (length pre) in
  (∀ idx t, before !! idx = Some t → TicketID t = tid → Sold t = false →
     after = <[idx := mkTicket (TicketID t) (Type_ t) (Category t) (Admit t) (Seq t)
                               true (up_CustomerName row) (Visited t) (Visitor_Seats t)
                               (Some now)]> before)
  ∧ ((∀ t, t ∈ before → TicketID t = tid → Sold t = true) → after = before)
  ∧ (tid ∈ (zfill 4 ∘ up_TicketID) <$> pre → after = before)
  ∧ (∀ j u, before !! j = Some u → TicketID u ≠ tid → after !! j = Some u).
Proof.
  intros Hnd before after tid now.
  assert (Hafter : after = bulk_step now (normalize_upload row) before)
    by apply bulk_sale_snoc.
  unfold tid.
  assert (Hnd' : NoDup (TicketID <$> before)).
  { unfold before, bulk_sale. by rewrite bulk_loop_ids. }
  split_and!.
  - intros idx t Hi Hid Hs. rewrite Hafter.
    destruct (bulk_step_cases now (normalize_upload row) before)
      as [(idx' & t' & Hfind & ->)|[Hfind _]].
    + apply list_find_Some in Hfind as (Hi' & [Hid' _] & _). simpl in Hid'.
      assert (idx' = idx) as ->.
      { eapply NoDup_lookup; [exact Hnd'|..].
        - by rewrite list_lookup_fmap, Hi'.
        - rewrite list_lookup_fmap, Hi. simpl. congruence. }
      by simplify_eq.
    + rewrite list_find_None, Forall_forall in Hfind.
      destruct (Hfind t); [by eapply list_elem_of_lookup_2|done].
  - intros Hall. rewrite Hafter. by apply bulk_step_noop.
  - intros Hocc. rewrite Hafter. apply bulk_step_noop. simpl.
    intros t Hin Hid. unfold before, bulk_sale in Hin.
    eapply bulk_loop_settles; [exact Hnd| |exact Hin|exact Hid].
    by rewrite <-list_fmap_compose.
  - intros j u Hj Hne. rewrite Hafter.
    destruct (bulk_step_cases now (normalize_upload row) before)
      as [(idx & t & Hfind & ->)|[_ ->]]; [|done].
    apply list_find_Some in Hfind as (Hi & [Hid _] & _). simpl in Hid.
    rewrite list_lookup_insert_ne; [done|]. intros ->. congruence.
Qed.

Lemma bulk_sale_row_by_row_witness :
  bulk_sale sample_clock [mkUploadRow "7" "Bob"] sample_tickets
  = <[0%nat := mkTicket "0007" "Public" "Gold" 4 (Some 1) true "Bob" false 0
                        (Some "12:00")]> sample_tickets
  ∧ bulk_sale sample_clock [mkUploadRow "7" "Bob"; mkUploadRow "0007" "Carol"] sample_tickets
    = bulk_sale sample_clock [mkUploadRow "7" "Bob"] sample_tickets.
Proof.
  split.
  - destruct (bulk_sale_row_by_row sample_clock [] (mkUploadRow "7" "Bob")
                sample_tickets sample_tickets_unique) as (Hsell & _).
    exact (Hsell 0%nat
             (mkTicket "0007" "Public" "Gold" 4 (Some 1) false "" false 0 None)
             eq_refl eq_refl eq_refl).
  - destruct (bulk_sale_row_by_row sample_clock [mkUploadRow "7" "Bob"]
                (mkUploadRow "0007" "Carol")
                sample_tickets sample_tickets_unique) as (_ & _ & Hdup & _).
    apply Hdup. compute_done.
Defined.

(** ** Menu recalculation *)

Lemma recalc_at_lookup index row edited_menu j :
  edited_menu !! index = Some row →
  recalc_at index row edited_menu !! j =
    if decide (index = j) then Some (derive row) else edited_menu !! j.
Proof.
  intros Hi.
  assert (∀ r, <[index := r]> edited_menu !! j
               = if decide (index = j) then Some r else edited_menu !! j) as Hins.
  { intros r. case_decide as Hj.
    - subst. apply list_lookup_insert_eq. by eapply lookup_lt_Some.
    - by apply list_lookup_insert_ne. }
  assert (edited_menu !! j
          = if decide (index = j) then Some row else edited_menu !! j) as Hsame.
  { case_decide; congruence. }
  unfold recalc_at, derive, at_write.
  destruct (contains_dash _); [|done].
  destruct (parse_series _) as [[start end_]|]; [|done]. simpl.
  destruct (decide (int64_fits (end_ - start + 1))); [|done].
  destruct (m_Admit row) as [a|]; simpl.
  - destruct (decide (int64_fits _)).
    + by rewrite (alter_twice _ _ _ _ row).
    + by rewrite (alter_lookup_insert _ _ _ row).
  - by rewrite (alter_lookup_insert _ _ _ row).
Qed.

Lemma recalc_loop_lookup rows n edited_menu j :
  (∀ i row, rows !! i = Some row → edited_menu !! (n + i)%nat = Some row) →
  recalc_loop (imap (λ i, pair (n + i)%nat) rows) edited_menu !! j =
    if decide (n ≤ j < n + length rows)%nat
    then derive <$> edited_menu !! j else edited_menu !! j.
Proof.
  revert n edited_menu. induction rows as [|row rows IH]; intros n edited_menu Hsnap.
  - simpl. case_decide; [lia|done].
  - simpl. rewrite (imap_ext _ (λ i, pair (S n + i)%nat) rows)
      by (intros; simpl; f_equal; lia).
    pose proof (Hsnap 0%nat row eq_refl) as Hrow. rewrite Nat.add_0_r in *.
    rewrite IH.
    + rewrite (recalc_at_lookup _ _ _ _ Hrow).
      destruct (decide (n = j)) as [<-|Hne].
      * rewrite decide_False by lia. rewrite decide_True by lia. by rewrite Hrow.
      * destruct (decide (S n ≤ j < S n + length rows)%nat).
        -- by rewrite decide_True by lia.
        -- by rewrite decide_False by lia.
    + intros i r Hr. rewrite (recalc_at_lookup _ _ _ _ Hrow).
      rewrite decide_False by lia.
      specialize (Hsnap (S i) r Hr). by replace (S n + i)%nat with (n + S i)%nat by lia.
Qed.

(** The loop rewrites every row by [derive], each from its own cells. *)
Lemma recalculate_rows edited_menu : recalculate edited_menu = derive <$> edited_menu.
Proof.
  apply list_eq. intros j. unfold recalculate.
  change (imap pair edited_menu) with (imap (λ i, pair (0 + i)%nat) edited_menu).
  rewrite (recalc_loop_lookup edited_menu 0 edited_menu j) by done.
  rewrite list_lookup_fmap. case_decide as Hj; [done|].
  rewrite (lookup_ge_None_2 edited_menu j) by lia. done.
Qed.

Lemma split_no_dash s : contains_dash s = false → split_dash s = [s].
Proof.
  induction s as [|c r IH]; simpl; [done|].
  case_decide; [done|]. intros Hr. by rewrite IH.
Qed.


(** *** Plain decimal ranges *)

Lemma digit_chars c :
  is_Some (Ascii.is_nat c) →
  c ∈ ["0"; "1"; "2"; "3"; "4"; "5"; "6"; "7"; "8"; "9"]%char.
Proof.
  destruct c as [[] [] [] [] [] [] [] []]; intros [d Hd]; simpl in Hd;
    first [discriminate | compute_done].
Qed.

Ltac digit_cases H :=
  repeat (apply elem_of_cons in H as [->|H]); [..|by apply elem_of_nil in H].

Lemma digits_value_decimal s acc prev :
  all_digits s = true → prev = true ∨ s ≠ "" →
  digits_value acc prev s = Some (decimal acc s).
Proof.
  revert acc prev. induction s as [|c r IH]; intros acc prev Hd Hne; simpl.
  - destruct Hne as [->|]; done.
  - simpl in Hd. apply andb_prop in Hd as [Hc%bool_decide_eq_true Hr].
    destruct Hc as [d Hd]. rewrite Hd. simpl. apply IH; auto.
Qed.

Lemma contains_dash_digits s : all_digits s = true → contains_dash s = false.
Proof.
  induction s as [|c r IH]; simpl; [done|].
  intros [Hc%bool_decide_eq_true Hr]%andb_prop.
  rewrite decide_False; [auto|]. intros ->. by destruct Hc.
Qed.

Lemma split_dash_range a b :
  all_digits a = true → all_digits b = true →
  split_dash (a +:+ "-" +:+ b) = [a; b].
Proof.
  intros Ha Hb. induction a as [|c r IH].
  - change (split_dash (String "-" b) = [""; b]). simpl.
    rewrite split_no_dash; [done|]. by apply contains_dash_digits.
  - change (split_dash (String c (r +:+ "-" +:+ b)) = [String c r; b]).
    simpl in Ha. apply andb_prop in Ha as [Hc%bool_decide_eq_true Hr].
    simpl. rewrite decide_False by (intros ->; by destruct Hc).
    by rewrite IH.
Qed.

Lemma strip_digits s : all_digits s = true → rstrip (lstrip s) = s.
Proof.
  intros Hs. assert (lstrip s = s) as ->.
  { destruct s as [|c r]; [done|]. simpl in *.
    apply andb_prop in Hs as [Hc%bool_decide_eq_true%digit_chars _].
    by digit_cases Hc. }
  induction s as [|c r IH]; [done|]. simpl in *.
  apply andb_prop in Hs as [Hc%bool_decide_eq_true%digit_chars Hr].
  rewrite IH by done. destruct r.
  - by digit_cases Hc.
  - done.
Qed.

Lemma py_int_decimal s :
  all_digits s = true → s ≠ "" → py_int s = Some (decimal 0 s).
Proof.
  intros Hs Hne. unfold py_int. rewrite strip_digits by done.
  destruct s as [|c r]; [done|].
  rewrite <-(digits_value_decimal (String c r) 0 false) by auto.
  simpl in Hs. apply andb_prop in Hs as [Hc%bool_decide_eq_true%digit_chars _].
  by digit_cases Hc.
Qed.

(** A range written as two plain decimal numbers around one dash is parsed to
    these numbers. *)
Lemma parse_series_decimal a b :
  all_digits a = true → a ≠ "" → all_digits b = true → b ≠ "" →
  parse_series (a +:+ "-" +:+ b) = Some (decimal 0 a, decimal 0 b).
Proof.
  intros Ha Hna Hb Hnb. unfold parse_series.
  rewrite split_dash_range by done.
  by rewrite !py_int_decimal by done.
Qed.

(** *** The pattern of a Series and the unpacking of line 232 *)

Lemma string_app_assoc (a b c : string) : (a +:+ b) +:+ c = a +:+ b +:+ c.
Proof.
  induction a as [|x a IH]; [done|].
  change (String x ((a +:+ b) +:+ c) = String x (a +:+ b +:+ c)). by rewrite IH.
Qed.

Lemma string_app_nil_r (a : string) : a +:+ "" = a.
Proof.
  induction a as [|x a IH]; [done|].
  change (String x (a +:+ "") = String x a). by rewrite IH.
Qed.


















(** ** custom_sort *)

Section custom_sort_facts.
Context {A : Type} (col : A → SeqCell).

Global Instance by_sort_key_trans : Transitive (@by_sort_key A).
Proof. intros x y z. unfold by_sort_key. lia. Qed.

Global Instance by_sort_key_total : Total (@by_sort_key A).
Proof. intros x y. unfold by_sort_key. lia. Qed.

Lemma StronglySorted_lookup_rel (R : relation (A * Z)) l i j x y :
  StronglySorted R l → (i < j)%nat →
  l !! i = Some x → l !! j = Some y → R x y.
Proof.
  intros Hs. revert i j. induction Hs as [|z l Hs IH Hall]; intros i j Hlt Hi Hj.
  - done.
  - destruct j as [|j]; [lia|]. simpl in Hj. destruct i as [|i]; simpl in Hi.
    + injection Hi as ->. rewrite Forall_forall in Hall.
      apply Hall. by eapply list_elem_of_lookup_2.
    + eapply IH; [|done..]. lia.
Qed.

Lemma zip_keys_Forall (df : list A) keys :
  Forall2 (λ x k, (sort_key ∘ col) x = Some k) df keys →
  Forall (λ r, sort_key (col r.1) = Some r.2) (zip df keys).
Proof. induction 1; simpl; constructor; auto. Qed.

(** The sorted frame, each row still with the key it was sorted by. *)
Lemma custom_sort_keyed df out :
  custom_sort (Some col) df = Some out →
  ∃ keyed : list (A * Z),
    out = keyed.*1 ∧ out ≡ₚ df
    ∧ StronglySorted by_sort_key keyed
    ∧ Forall (λ r, sort_key (col r.1) = Some r.2) keyed.
Proof.
  unfold custom_sort. intros (keys & Hkeys & [= <-])%bind_Some.
  apply mapM_Some in Hkeys.
  exists (sort_values (zip df keys)). unfold sort_values. split_and!.
  - done.
  - rewrite merge_sort_Permutation, fst_zip; [done|].
    by rewrite (Forall2_length _ _ _ Hkeys).
  - apply StronglySorted_merge_sort; apply _.
  - rewrite merge_sort_Permutation. by apply zip_keys_Forall.
Qed.

Lemma custom_sort_ordered df out i j a b ka kb :
  custom_sort (Some col) df = Some out → (i < j)%nat →
  out !! i = Some a → out !! j = Some b →
  sort_key (col a) = Some ka → sort_key (col b) = Some kb →
  ka ≤ kb.
Proof.
  intros (keyed & -> & _ & Hsorted & Hkeys)%custom_sort_keyed Hlt Hi Hj Ha Hb.
  rewrite list_lookup_fmap in Hi, Hj.
  apply fmap_Some in Hi as ([a' ka'] & Hi & ->).
  apply fmap_Some in Hj as ([b' kb'] & Hj & ->).
  rewrite Forall_forall in Hkeys.
  pose proof (Hkeys _ (list_elem_of_lookup_2 _ _ _ Hi)) as Hka.
  pose proof (Hkeys _ (list_elem_of_lookup_2 _ _ _ Hj)) as Hkb.
  simpl in *. simplify_eq.
  apply (StronglySorted_lookup_rel _ _ _ _ _ _ Hsorted Hlt Hi Hj).
Qed.

Lemma custom_sort_numeric df :
  Forall (λ a, ∃ z, col a = SeqNum z) df → is_Some (custom_sort (Some col) df).
Proof.
  intros Hnum. unfold custom_sort.
  destruct (mapM_is_Some_2 (sort_key ∘ col) df) as [keys ->]; [|by eexists].
  eapply Forall_impl; [exact Hnum|]. intros a [z Hz]. simpl. rewrite Hz.
  simpl. case_decide; by eexists.
Qed.
End custom_sort_facts.

(** ** Dashboard *)

Lemma group_key_in_group t seq ty cat adm :
  group_key t = Some (seq, ty, cat, adm) ↔ in_group seq ty cat adm t.
Proof.
  unfold group_key, in_group.
  destruct (Seq t) as [s|]; simpl; [|split; [done|by intros [? _]]].
  split; [intros ?; by simplify_eq|]. intros (? & ? & ? & ?). by simplify_eq.
Qed.

Lemma group_of_in_group seq ty cat adm df :
  group_of (seq, ty, cat, adm) df = filter (in_group seq ty cat adm) df.
Proof. apply list_filter_iff. intros t. apply group_key_in_group. Qed.

Lemma agg_sold_count g :
  agg_sold g = Z.of_nat (length (filter (λ t, Sold t = true) g)).
Proof.
  unfold agg_sold. induction g as [|t g IH]; [done|].
  rewrite fmap_cons, filter_cons. simpl foldr. rewrite IH.
  destruct (Sold t); [rewrite decide_True by done|rewrite decide_False by done];
    simpl length; lia.
Qed.

Lemma elem_of_group_keys k df :
  k ∈ group_keys df ↔ ∃ t, t ∈ df ∧ group_key t = Some k.
Proof.
  unfold group_keys.
  by rewrite merge_sort_Permutation, elem_of_remove_dups, list_elem_of_omap.
Qed.

Lemma NoDup_group_keys df : NoDup (group_keys df).
Proof. unfold group_keys. rewrite merge_sort_Permutation. apply NoDup_remove_dups. Qed.

Lemma row_key_summary_row seq ty cat adm df :
  row_key (summary_row (seq, ty, cat, adm) df) = (SeqNum seq, Some ty, Some cat, adm).
Proof. done. Qed.

Lemma NoDup_grouped_keys df : NoDup (row_key <$> grouped df).
Proof.
  unfold grouped. rewrite <-list_fmap_compose.
  apply NoDup_fmap_2_strong; [|apply NoDup_group_keys].
  intros [[[s1 t1] c1] a1] [[[s2 t2] c2] a2] _ _ Heq.
  unfold compose in Heq. rewrite !row_key_summary_row in Heq. by simplify_eq.
Qed.

Lemma grouped_numeric df : Forall (λ r, ∃ z, s_Seq r = SeqNum z) (grouped df).
Proof.
  apply Forall_forall. intros r ([[[s t] c] a] & -> & _)%list_elem_of_fmap.
  by exists s.
Qed.

(** The sorted summary exists and has the rows of the grouping. *)
Lemma summary_total df : ∃ s, summary df = Some s ∧ s ≡ₚ grouped df.
Proof.
  destruct (custom_sort_numeric s_Seq (grouped df) (grouped_numeric df)) as [s Hs].
  exists s. split; [done|].
  by destruct (custom_sort_keyed _ _ _ Hs) as (_ & _ & Hperm & _).
Qed.



(** C2. The summary exists for every ticket table. Each of its rows is the
    row of one non-empty group of tickets that agree on (Seq, Type, Category,
    Admit): Total_Tickets is the size of the group, Tickets_Sold the number of
    its sold tickets, Total_Visitors the sum of its Visitor_Seats, and
    Total_Seats = Total_Tickets * Admit, Seats_sold = Tickets_Sold * Admit,
    Balance_Tickets = Total_Tickets - Tickets_Sold, Balance_Seats =
    Total_Seats - Seats_sold, Balance_Visitors = Seats_sold - Total_Visitors.
    Every ticket with a Seq has the row of its key, and no key has two rows. *)
Theorem inventory_summary_rows df :
  ∃ s, summary df = Some s
    ∧ (∀ r, r ∈ s →
        ∃ seq ty cat adm,
          let g := filter (in_group seq ty cat adm) df in
          g ≠ []
          ∧ s_Seq r = SeqNum seq ∧ s_Type r = Some ty
          ∧ s_Category r = Some cat ∧ s_Admit r = adm
          ∧ Total_Tickets r = Z.of_nat (length g)
          ∧ Tickets_Sold r = Z.of_nat (length (filter (λ t, Sold t = true) g))
          ∧ Total_Visitors r = foldr Z.add 0 (Visitor_Seats <$> g)
          ∧ Total_Seats r = Total_Tickets r * adm
          ∧ Seats_sold r = Tickets_Sold r * adm
          ∧ Balance_Tickets r = Total_Tickets r - Tickets_Sold r
          ∧ Balance_Seats r = Total_Seats r - Seats_sold r
          ∧ Balance_Visitors r = Seats_sold r - Total_Visitors r)
    ∧ (∀ t seq, t ∈ df → Seq t = Some seq →
        ∃ r, r ∈ s ∧ row_key r = (SeqNum seq, Some (Type_ t), Some (Category t), Admit t))
    ∧ NoDup (row_key <$> s).
Proof.
  destruct (summary_total df) as (s & Hs & Hperm).
  exists s. split_and!; [done|..].
  - intros r Hr. rewrite Hperm in Hr.
    apply list_elem_of_fmap in Hr as ([[[seq ty] cat] adm] & -> & Hk).
    exists seq, ty, cat, adm. simpl.
    rewrite group_of_in_group, <-agg_sold_count.
    split_and!; try done.
    apply elem_of_group_keys in Hk as (t & Hin & Hkey).
    apply group_key_in_group in Hkey.
    intros Hnil. assert (t ∈ filter (in_group seq ty cat adm) df) as Ht
      by by apply list_elem_of_filter.
    rewrite Hnil in Ht. by apply elem_of_nil in Ht.
  - intros t seq Hin Hseq.
    exists (summary_row (seq, Type_ t, Category t, Admit t) df). split; [|done].
    rewrite Hperm. unfold grouped.
    apply (list_elem_of_fmap_2 (λ k, summary_row k df)), elem_of_group_keys.
    exists t. split; [done|]. unfold group_key. by rewrite Hseq.
  - rewrite Hperm. apply NoDup_grouped_keys.
Qed.


(** The row standing for the Total row in the list of rows is the Total row
    of the table, its NaN cells read as 0. *)
Lemma totals_total_cells df s :
  s ≡ₚ grouped df → totals s = as_summary_row (total_cells df s).
Proof.
  intros Hperm. unfold totals, total_cells, visitors_numeric.
  case_bool_decide as Hdf; [done|].
  subst df.
  by apply Permutation_nil_r in Hperm as ->.
Qed.



(** *** Order of the summary *)

Lemma sort_key_zero x : zero_seq x → sort_key x = Some 10.
Proof. by intros [-> | ->]. Qed.

Lemma sort_key_nonzero n : n ≠ 0 → sort_key (SeqNum n) = Some n.
Proof. intros Hn. simpl. by rewrite decide_False. Qed.

Lemma custom_sort_zero_late {A} (col : A → SeqCell) df out :
  custom_sort (Some col) df = Some out →
  zero_after_positive_below (Some 10) col out.
Proof.
  intros Hsort i j a b n Hi Hj Hzero Hb Hpos Hlt. simpl in Hlt.
  destruct (decide (j < i)%nat) as [|Hge]; [done|]. exfalso.
  assert (i ≠ j).
  { intros ->. rewrite Hi in Hj. injection Hj as ->.
    destruct Hzero as [Hz|Hz]; rewrite Hb in Hz; simplify_eq; lia. }
  assert (10 ≤ n); [|lia].
  eapply (custom_sort_ordered col df out i j a b); [done|lia|done..| |].
  - by apply sort_key_zero.
  - rewrite Hb. apply sort_key_nonzero. lia.
Qed.

Lemma custom_sort_positive_ascending {A} (col : A → SeqCell) df out :
  custom_sort (Some col) df = Some out → positive_ascending col out.
Proof.
  intros Hsort i j a b m n Hlt Hi Hj Ha Hb Hm Hn.
  eapply (custom_sort_ordered col df out i j a b); [done..| |].
  - rewrite Ha. apply sort_key_nonzero. lia.
  - rewrite Hb. apply sort_key_nonzero. lia.
Qed.

(** Appending the Total row does not disturb the order of the rows before it:
    its label is neither zero nor a number. *)
Lemma order_with_totals (s : list SummaryRow) bound :
  zero_after_positive_below bound s_Seq s → positive_ascending s_Seq s →
  zero_after_positive_below bound s_Seq (s ++ [totals s])
  ∧ positive_ascending s_Seq (s ++ [totals s]).
Proof.
  assert (Hin : ∀ i r, (s ++ [totals s]) !! i = Some r →
                  s_Seq r ≠ SeqStr "Total" → s !! i = Some r).
  { intros i r Hi Hr. apply lookup_app_Some in Hi as [Hi|[_ Hi]]; [done|].
    apply list_lookup_singleton_Some in Hi as [_ <-]. done. }
  intros Hzero Hasc. split.
  - intros i j a b n Hi Hj Hz Hb Hn Hbound.
    apply Hin in Hi; [|destruct Hz as [Hz|Hz]; by rewrite Hz].
    apply Hin in Hj; [|by rewrite Hb]. eauto.
  - intros i j a b m n Hlt Hi Hj Ha Hb Hm Hn.
    apply Hin in Hi; [|by rewrite Ha]. apply Hin in Hj; [|by rewrite Hb]. eauto.
Qed.

(** C4, as stated, fails: in the summary of [late_seq_tickets] the group with
    Seq 0 is sorted by the key 10 and comes before the group with Seq 11. *)
Lemma seq_zero_before_seq_eleven :
  ∃ out, summary_final late_seq_tickets = Some out
         ∧ s_Seq <$> out !! 0%nat = Some (SeqNum 0)
         ∧ s_Seq <$> out !! 1%nat = Some (SeqNum 11)
         ∧ ¬ zero_after_positive_below None s_Seq out.
Proof.
  eexists. split; [vm_compute; reflexivity|]. split_and!; [done..|].
  intros Hclaim.
  pose proof (Hclaim 0%nat 1%nat _ _ 11 eq_refl eq_refl (or_introl eq_refl) eq_refl) as H.
  simpl in H. lia.
Qed.

(** C4, amended. In the final summary a group with Seq 0 comes after every
    group whose Seq is positive and below 10, the key that [custom_sort] gives
    to Seq 0; the groups with positive Seq are in ascending order of Seq; and
    the Total row is the last row. The first two hold for every frame that
    [custom_sort] sorts, the menu with its string cells included. *)
Theorem summary_sort_order df :
  (∃ s out, summary df = Some s ∧ summary_final df = Some out
     ∧ zero_after_positive_below (Some 10) s_Seq out
     ∧ positive_ascending s_Seq out
     ∧ last out = Some (totals s) ∧ s_Seq (totals s) = SeqStr "Total"
     ∧ ∀ i r, out !! i = Some r → s_Seq r = SeqStr "Total" → S i = length out)
  ∧ (∀ menu menu_display,
       custom_sort (Some m_Seq) menu = Some menu_display →
       zero_after_positive_below (Some 10) m_Seq menu_display
       ∧ positive_ascending m_Seq menu_display).
Proof.
  split.
  - destruct (summary_total df) as (s & Hs & Hperm).
    exists s, (s ++ [totals s]).
    destruct (order_with_totals s (Some 10)) as [Hzero Hasc].
    { by eapply custom_sort_zero_late. }
    { by eapply custom_sort_positive_ascending. }
    split_and!; try done.
    + unfold summary_final. rewrite Hs. simpl.
      by rewrite <-(totals_total_cells df s).
    + apply last_snoc.
    + intros i r Hi Hr. rewrite length_app. simpl.
      apply lookup_app_Some in Hi as [Hi|[Hge Hi]].
      * apply list_elem_of_lookup_2 in Hi. rewrite Hperm in Hi.
        apply list_elem_of_fmap in Hi as ([[[seq ty] cat] adm] & -> & _).
        done.
      * apply list_lookup_singleton_Some in Hi as [Hi _]. lia.
  - intros menu menu_display Hsort. split.
    + by eapply custom_sort_zero_late.
    + by eapply custom_sort_positive_ascending.
Qed.

(** ** The invariant Visited ⇒ Sold *)

Lemma offered_unique (P : Ticket → Prop) `{!∀ t, Decision (P t)}
    (tickets : list Ticket) tid idx t :
  NoDup (TicketID <$> tickets) →
  tid ∈ TicketID <$> filter P tickets →
  first_index tid tickets = Some idx → tickets !! idx = Some t →
  P t.
Proof.
  intros Hnd (u & -> & [HP Hin]%list_elem_of_filter)%list_elem_of_fmap Hidx Hi.
  apply list_elem_of_lookup in Hin as [j Hj].
  pose proof (unique_first_index _ _ _ Hnd Hj) as Hidx'.
  assert (j = idx) as -> by congruence. congruence.
Qed.

Lemma not_offered (P : Ticket → Prop) `{!∀ t, Decision (P t)}
    (tickets : list Ticket) idx t :
  TicketID t ∉ TicketID <$> filter P tickets → tickets !! idx = Some t → ¬ P t.
Proof.
  intros Hnot Hi HP. apply Hnot, elem_of_offered; [|done].
  by eapply list_elem_of_lookup_2.
Qed.

Lemma ids_insert (tickets : list Ticket) idx t t' :
  tickets !! idx = Some t → TicketID t' = TicketID t →
  TicketID <$> <[idx := t']> tickets = TicketID <$> tickets.
Proof.
  intros Hi Hid. rewrite list_fmap_insert. apply list_insert_id.
  by rewrite list_lookup_fmap, Hi, Hid.
Qed.

Lemma visited_implies_sold_insert tickets idx t' :
  visited_implies_sold tickets → (Visited t' = true → Sold t' = true) →
  visited_implies_sold (<[idx := t']> tickets).
Proof. intros Hinv Ht. by apply Forall_insert. Qed.

Lemma bulk_loop_visited_implies_sold clock i rows tickets :
  visited_implies_sold tickets → visited_implies_sold (bulk_loop clock i rows tickets).
Proof.
  revert i tickets. induction rows as [|r rows IH]; intros i tickets Hinv; [done|].
  simpl. apply IH.
  destruct (bulk_step_cases (clock i) r tickets) as [(idx & t & _ & ->)|[_ ->]]; [|done].
  by apply visited_implies_sold_insert.
Qed.

(** Each action keeps the ticket ids as they are. *)
Lemma run_ids menu a tickets :
  TicketID <$> run menu a tickets = TicketID <$> tickets.
Proof.
  assert (Hrow : ∀ tid tickets', rewrote_row tid tickets tickets' →
            (∀ idx t, first_index tid tickets = Some idx → tickets !! idx = Some t →
               ∃ t', tickets' = <[idx := t']> tickets ∧ TicketID t' = TicketID t) →
            TicketID <$> tickets' = TicketID <$> tickets).
  { intros tid tickets' (idx & t & _ & Hidx & Hi & _) Hsame.
    destruct (Hsame idx t Hidx Hi) as (t' & -> & Hid). by eapply ids_insert. }
  destruct a as [ty cat tid cust now|clock up_df|tid|ty cat tid v now|tid|pw]; simpl.
  - destruct (manual_sale _ _ _ _ _ _ _) as [tickets'|] eqn:Hm; [|done]. simpl.
    apply (Hrow tid); [by eapply manual_sale_rewrote|]. intros idx t Hidx Hi.
    unfold manual_sale in Hm. case_decide; [|done].
    rewrite (sale_mutation_at _ _ _ _ _ _ Hidx Hi) in Hm. injection Hm as <-.
    by eexists.
  - apply bulk_loop_ids.
  - destruct (reverse_sale _ _) as [tickets'|] eqn:Hm; [|done]. simpl.
    apply (Hrow tid); [by eapply reverse_sale_rewrote|]. intros idx t Hidx Hi.
    unfold reverse_sale in Hm. case_decide; [|done].
    rewrite (reverse_sale_mutation_at _ _ _ _ Hidx Hi) in Hm. injection Hm as <-.
    by eexists.
  - destruct (check_in _ _ _ _ _ _ _) as [tickets'|] eqn:Hm; [|done]. simpl.
    apply (Hrow tid); [by eapply check_in_rewrote|]. intros idx t Hidx Hi.
    unfold check_in in Hm. case_decide; [|done].
    destruct (confirmed_visitors _ _ _ _ _) as [n|]; [|done]. simpl in Hm.
    rewrite (checkin_mutation_at _ _ _ _ _ _ Hidx Hi) in Hm. injection Hm as <-.
    by eexists.
  - destruct (reverse_entry _ _) as [tickets'|] eqn:Hm; [|done]. simpl.
    apply (Hrow tid); [by eapply reverse_entry_rewrote|]. intros idx t Hidx Hi.
    unfold reverse_entry in Hm. case_decide; [|done].
    rewrite (reverse_entry_mutation_at _ _ _ _ Hidx Hi) in Hm. injection Hm as <-.
    by eexists.
  - unfold reset_database. case_decide; [|done]. simpl.
    by rewrite <-list_fmap_compose.
Qed.

(** With unique ids, every action other than the reversal of the sale of a
    checked-in ticket keeps Visited ⇒ Sold. *)
Lemma run_keeps_visited_implies_sold menu a tickets :
  NoDup (TicketID <$> tickets) →
  visited_implies_sold tickets →
  ¬ reverses_visited a tickets →
  visited_implies_sold (run menu a tickets).
Proof.
  intros Hnd Hinv Hnot.
  destruct a as [ty cat tid cust now|clock up_df|tid|ty cat tid v now|tid|pw]; simpl.
  - destruct (manual_sale _ _ _ _ _ _ _) as [tickets'|] eqn:Hm; [|done]. simpl.
    destruct (manual_sale_rewrote _ _ _ _ _ _ _ _ Hm) as (idx & t & _ & Hidx & Hi & _).
    unfold manual_sale in Hm. case_decide; [|done].
    rewrite (sale_mutation_at _ _ _ _ _ _ Hidx Hi) in Hm. injection Hm as <-.
    by apply visited_implies_sold_insert.
  - by apply bulk_loop_visited_implies_sold.
  - destruct (reverse_sale _ _) as [tickets'|] eqn:Hm; [|done]. simpl.
    destruct (reverse_sale_rewrote _ _ _ Hm) as (idx & t & _ & Hidx & Hi & _).
    unfold reverse_sale in Hm. case_decide; [|done].
    rewrite (reverse_sale_mutation_at _ _ _ _ Hidx Hi) in Hm. injection Hm as <-.
    apply visited_implies_sold_insert; [done|]. simpl. intros Hv.
    destruct Hnot. simpl.
    apply first_index_Some in Hidx as (t0 & Hi0 & <- & _).
    assert (t0 = t) as -> by congruence.
    apply elem_of_offered; [|done]. by eapply list_elem_of_lookup_2.
  - destruct (check_in _ _ _ _ _ _ _) as [tickets'|] eqn:Hm; [|done]. simpl.
    destruct (check_in_rewrote _ _ _ _ _ _ _ _ Hm) as (idx & t & _ & Hidx & Hi & _).
    unfold check_in in Hm. case_decide as Hguard; [|done].
    destruct (confirmed_visitors _ _ _ _ _) as [n|]; [|done]. simpl in Hm.
    rewrite (checkin_mutation_at _ _ _ _ _ _ Hidx Hi) in Hm. injection Hm as <-.
    apply visited_implies_sold_insert; [done|]. simpl. intros _.
    destruct Hguard as [_ Helig].
    by destruct (offered_unique _ _ _ _ _ Hnd Helig Hidx Hi) as (_ & _ & ? & _).
  - destruct (reverse_entry _ _) as [tickets'|] eqn:Hm; [|done]. simpl.
    destruct (reverse_entry_rewrote _ _ _ Hm) as (idx & t & _ & Hidx & Hi & _).
    unfold reverse_entry in Hm. case_decide; [|done].
    rewrite (reverse_entry_mutation_at _ _ _ _ Hidx Hi) in Hm. injection Hm as <-.
    by apply visited_implies_sold_insert.
  - unfold reset_database. case_decide; [|done]. simpl.
    unfold visited_implies_sold. rewrite Forall_fmap. by apply Forall_true.
Qed.

Lemma run_all_keeps_visited_implies_sold menu actions tickets :
  NoDup (TicketID <$> tickets) →
  visited_implies_sold tickets →
  never_reverses_visited menu actions tickets →
  visited_implies_sold (run_all menu actions tickets).
Proof.
  revert tickets. induction actions as [|a rest IH]; intros tickets Hnd Hinv Hnever.
  - done.
  - destruct Hnever as [Hnot Hrest]. unfold run_all. simpl. apply IH.
    + by rewrite run_ids.
    + by apply run_keeps_visited_implies_sold.
    + done.
Qed.

(** C1. The code does not keep Visited ⇒ Sold: [sample_tickets] has unique
    ids and satisfies it, the ticket 0009 is sold and checked in, and the
    reversal of its sale is accepted and leaves its row with Visited true and
    Sold false. *)
Theorem reverse_sale_of_visited_ticket :
  NoDup (TicketID <$> sample_tickets)
  ∧ visited_implies_sold sample_tickets
  ∧ reverse_sale "0009" sample_tickets =
      Some (<[2%nat := mkTicket "0009" "Public" "Gold" 4 (Some 1) false "" true 3 None]>
              sample_tickets)
  ∧ ¬ visited_implies_sold (run sample_menu (ReverseSale "0009") sample_tickets).
Proof.
  split_and!; [exact sample_tickets_unique|compute_done|by vm_compute|].
  intros Hinv. unfold visited_implies_sold in Hinv. rewrite Forall_forall in Hinv.
  specialize (Hinv (mkTicket "0009" "Public" "Gold" 4 (Some 1) false "" true 3 None)).
  discriminate Hinv; [|done]. compute_done.
Qed.

(** * Further properties of the code *)

(** ** Normalised ticket ids and loading *)

Lemma length_zeros n : String.length (zeros n) = n.
Proof. induction n; simpl; congruence. Qed.

Lemma string_length_app a b :
  String.length (a +:+ b) = (String.length a + String.length b)%nat.
Proof.
  induction a as [|c a IH]; [done|].
  change (S (String.length (a +:+ b)) = S (String.length a + String.length b)).
  by rewrite IH.
Qed.

Lemma zfill_length width s :
  String.length (zfill width s) = (width `max` String.length s)%nat.
Proof.
  unfold zfill. destruct s as [|c r].
  - rewrite length_zeros. simpl. lia.
  - case_decide; simpl; rewrite ?string_length_app, length_zeros; simpl; lia.
Qed.

Lemma zfill_long width s : (width ≤ String.length s)%nat → zfill width s = s.
Proof.
  intros Hlen. unfold zfill.
  replace (width - String.length s)%nat with 0%nat by lia.
  destruct s as [|c r]; [done|]. by case_decide.
Qed.

Lemma zfill_idemp width s : zfill width (zfill width s) = zfill width s.
Proof. apply zfill_long. rewrite zfill_length. lia. Qed.

(** X1. The ids of a loaded table and of an uploaded sheet are normalised the
    same way: a cleaned id has at least four characters and is left as it is
    by another zfill(4), normalising a sheet row twice is normalising it once,
    and a sheet row that carries the id of a loaded ticket addresses exactly
    that id. *)
Theorem ticket_ids_normalised raw row cust :
  (4 ≤ String.length (TicketID (clean_row raw)))%nat
  ∧ zfill 4 (TicketID (clean_row raw)) = TicketID (clean_row raw)
  ∧ normalize_upload (normalize_upload row) = normalize_upload row
  ∧ up_TicketID (normalize_upload (mkUploadRow (TicketID (clean_row raw)) cust))
    = TicketID (clean_row raw).
Proof.
  split_and!.
  - simpl. rewrite zfill_length. lia.
  - apply zfill_idemp.
  - unfold normalize_upload. simpl. by rewrite zfill_idemp.
  - apply zfill_idemp.
Qed.

Lemma clean_row_raw_of t :
  clean_row (raw_of t) = t ↔ zfill 4 (TicketID t) = TicketID t.
Proof.
  unfold clean_row, raw_of. destruct t; simpl. split.
  - by intros [= ->].
  - by intros ->.
Qed.

Lemma load_tickets_fixed tickets :
  Forall (λ t, zfill 4 (TicketID t) = TicketID t) tickets →
  load_tickets (raw_of <$> tickets) = tickets.
Proof.
  intros Hall. unfold load_tickets. rewrite <-list_fmap_compose.
  rewrite <-(list_fmap_id tickets) at 2. apply Forall_fmap_ext_1.
  eapply Forall_impl; [exact Hall|]. intros t Ht. by apply clean_row_raw_of.
Qed.

Lemma normalised_ids_transfer (tickets tickets' : list Ticket) :
  TicketID <$> tickets' = TicketID <$> tickets →
  Forall (λ t, zfill 4 (TicketID t) = TicketID t) tickets →
  Forall (λ t, zfill 4 (TicketID t) = TicketID t) tickets'.
Proof.
  intros Hids Hall.
  apply (Forall_fmap TicketID (λ i, zfill 4 i = i)).
  rewrite Hids. by apply (Forall_fmap TicketID (λ i, zfill 4 i = i)).
Qed.

Lemma run_all_ids menu actions tickets :
  TicketID <$> run_all menu actions tickets = TicketID <$> tickets.
Proof.
  revert tickets. induction actions as [|a rest IH]; intros tickets; [done|].
  unfold run_all in *. simpl. by rewrite IH, run_ids.
Qed.

(** X2. Cleaning only fills what is missing: a row without a missing cell
    whose id has four characters or more comes out of the cleaning as it went
    in. Hence a loaded table, and the table any sequence of actions makes of
    it, is cleaned to itself when it is read again as it was written. *)
Theorem cleaning_fixes_clean_tables menu actions rows t :
  ((4 ≤ String.length (TicketID t))%nat → clean_row (raw_of t) = t)
  ∧ load_tickets (raw_of <$> load_tickets rows) = load_tickets rows
  ∧ load_tickets (raw_of <$> run_all menu actions (load_tickets rows))
    = run_all menu actions (load_tickets rows).
Proof.
  assert (Hloaded : Forall (λ t, zfill 4 (TicketID t) = TicketID t) (load_tickets rows)).
  { unfold load_tickets. apply Forall_fmap, Forall_true. intros r. apply zfill_idemp. }
  split_and!.
  - intros Hlen. apply clean_row_raw_of. by apply zfill_long.
  - by apply load_tickets_fixed.
  - apply load_tickets_fixed.
    eapply normalised_ids_transfer; [apply run_all_ids|done].
Qed.

(** ** What a submitted form wrote *)

Lemma manual_sale_Some menu ty cat tid cust now tickets tickets' :
  manual_sale menu ty cat tid cust now tickets = Some tickets' →
  ∃ idx t, first_index tid tickets = Some idx ∧ tickets !! idx = Some t
    ∧ cat ∈ category_options menu ty ∧ tid ∈ avail ty cat tickets
    ∧ tickets' = <[idx := set_Timestamp (Some now) (set_Customer cust (set_Sold true t))]>
                   tickets.
Proof.
  intros Hm.
  destruct (manual_sale_rewrote _ _ _ _ _ _ _ _ Hm) as (idx & t & _ & Hidx & Hi & _).
  unfold manual_sale in Hm. case_decide as Hg; [|done]. destruct Hg.
  rewrite (sale_mutation_at _ _ _ _ _ _ Hidx Hi) in Hm. injection Hm as <-.
  by exists idx, t.
Qed.

Lemma reverse_sale_Some tid tickets tickets' :
  reverse_sale tid tickets = Some tickets' →
  ∃ idx t, first_index tid tickets = Some idx ∧ tickets !! idx = Some t
    ∧ tid ∈ sold_list tickets
    ∧ tickets' = <[idx := set_Timestamp None (set_Customer "" (set_Sold false t))]> tickets.
Proof.
  intros Hm.
  destruct (reverse_sale_rewrote _ _ _ Hm) as (idx & t & _ & Hidx & Hi & _).
  unfold reverse_sale in Hm. case_decide; [|done].
  rewrite (reverse_sale_mutation_at _ _ _ _ Hidx Hi) in Hm. injection Hm as <-.
  by exists idx, t.
Qed.

(** Whatever was entered, the count that the submit run gets from the number
    input lies between 1 and the [Admit] of the selected ticket. *)
Lemma confirmed_visitors_range ty cat tid v tickets idx t w :
  first_index tid tickets = Some idx → tickets !! idx = Some t →
  confirmed_visitors ty cat tid v tickets = Some w →
  1 ≤ w ≤ Admit t.
Proof.
  intros Hidx Hi. unfold confirmed_visitors.
  destruct (head _) as [first|]; [|done]. simpl.
  destruct (max_v first tickets) as [hi0|]; [|done]. simpl.
  destruct (number_input 1 hi0 hi0 None); [|done]. simpl.
  case_decide as Hv; [|done].
  rewrite (max_v_at _ _ _ _ Hidx Hi). simpl.
  unfold number_input. case_decide as Hhi; [|done].
  case_decide as Hsame; intros [= <-]; [|lia].
  destruct Hsame as (_ & <- & _). lia.
Qed.

Lemma check_in_Some menu ty cat tid v now tickets tickets' :
  check_in menu ty cat tid v now tickets = Some tickets' →
  ∃ idx t w, first_index tid tickets = Some idx ∧ tickets !! idx = Some t
    ∧ cat ∈ category_options menu ty ∧ tid ∈ elig ty cat tickets
    ∧ confirmed_visitors ty cat tid v tickets = Some w
    ∧ 1 ≤ w ≤ Admit t
    ∧ tickets' = <[idx := set_Timestamp (Some now)
                            (set_Visitor_Seats w (set_Visited true t))]> tickets.
Proof.
  intros Hm.
  destruct (check_in_rewrote _ _ _ _ _ _ _ _ Hm) as (idx & t & _ & Hidx & Hi & _).
  unfold check_in in Hm. case_decide as Hg; [|done]. destruct Hg.
  destruct (confirmed_visitors ty cat tid v tickets) as [w|] eqn:Hw; [|done].
  simpl in Hm.
  rewrite (checkin_mutation_at _ _ _ _ _ _ Hidx Hi) in Hm. injection Hm as <-.
  exists idx, t, w. split_and!; try done; by eapply confirmed_visitors_range.
Qed.

Lemma reverse_entry_Some tid tickets tickets' :
  reverse_entry tid tickets = Some tickets' →
  ∃ idx t, first_index tid tickets = Some idx ∧ tickets !! idx = Some t
    ∧ tid ∈ visited_list tickets
    ∧ tickets' = <[idx := set_Visitor_Seats 0 (set_Visited false t)]> tickets.
Proof.
  intros Hm.
  destruct (reverse_entry_rewrote _ _ _ Hm) as (idx & t & _ & Hidx & Hi & _).
  unfold reverse_entry in Hm. case_decide; [|done].
  rewrite (reverse_entry_mutation_at _ _ _ _ Hidx Hi) in Hm. injection Hm as <-.
  by exists idx, t.
Qed.

(** With unique ids, an id that a form offers belongs to a row in the state
    the form asks for, and that row is the row the form writes to. *)
Lemma offered_row (P : Ticket → Prop) `{!∀ t, Decision (P t)}
    (tickets : list Ticket) tid idx t t' :
  NoDup (TicketID <$> tickets) →
  first_index tid tickets = Some idx → tickets !! idx = Some t →
  TicketID t' = TicketID t →
  tid ∈ TicketID <$> filter P (<[idx := t']> tickets) → P t'.
Proof.
  intros Hnd Hidx Hi Hid Hoff.
  assert (Hi' : <[idx := t']> tickets !! idx = Some t').
  { apply list_lookup_insert_eq. by eapply lookup_lt_Some. }
  eapply (offered_unique P (<[idx := t']> tickets) tid idx t'); [|done| |done].
  - by rewrite (ids_insert _ _ t).
  - apply first_index_insert; [done|].
    apply first_index_Some in Hidx as (t0 & Hi0 & <- & _). congruence.
Qed.

(** ** More on the bulk upload *)

Lemma bulk_step_row now row tickets j t :
  tickets !! j = Some t →
  ∃ t', bulk_step now row tickets !! j = Some t'
    ∧ (t' = t
       ∨ (Sold t = false ∧ TicketID t = up_TicketID row
          ∧ t' = set_Timestamp (Some now)
                   (set_Customer (up_CustomerName row) (set_Sold true t)))).
Proof.
  intros Hj.
  destruct (bulk_step_cases now row tickets) as [(idx & u & Hfind & ->)|[_ ->]];
    [|by eauto].
  apply list_find_Some in Hfind as (Hi & [Hid Hs] & _).
  destruct (decide (idx = j)) as [->|Hne].
  - rewrite list_lookup_insert_eq by (by eapply lookup_lt_Some).
    assert (u = t) as -> by congruence. eauto 10.
  - rewrite list_lookup_insert_ne by done. eauto.
Qed.

Lemma bulk_loop_row clock i rows tickets j t :
  tickets !! j = Some t →
  ∃ t', bulk_loop clock i rows tickets !! j = Some t'
    ∧ (t' = t
       ∨ (Sold t = false
          ∧ ∃ k row, rows !! k = Some row ∧ TicketID t = up_TicketID row
              ∧ t' = set_Timestamp (Some (clock (i + k)%nat))
                       (set_Customer (up_CustomerName row) (set_Sold true t)))).
Proof.
  revert i tickets t. induction rows as [|r rows IH]; intros i tickets t Hj; simpl.
  - eauto.
  - destruct (bulk_step_row (clock i) r tickets j t Hj) as (t1 & Hj1 & Hcase).
    destruct (IH (S i) _ _ Hj1) as (t' & Hj' & Hcase').
    exists t'. split; [done|].
    destruct Hcase as [->|(Hs & Hid & ->)].
    + destruct Hcase' as [->|(Hs & k & row & Hk & Hid & ->)]; [by left|].
      right. split; [done|]. exists (S k), row. split_and!; [done..|].
      by replace (i + S k)%nat with (S i + k)%nat by lia.
    + destruct Hcase' as [->|(Hs' & _)]; [|done].
      right. split; [done|]. exists 0%nat, r. split_and!; [done..|].
      by rewrite Nat.add_0_r.
Qed.

(** X3. The bulk upload touches a ticket at most once and only to sell it:
    after the upload every row of the table is either the row it was, or it
    was not sold and is now sold to the customer of one sheet row carrying
    its id, stamped with the time of that row's iteration; its identity and
    check-in columns are kept. A ticket that was sold before keeps its
    customer and timestamp. *)
Theorem bulk_sale_touches_unsold_only clock up_df tickets j t :
  tickets !! j = Some t →
  ∃ t', bulk_sale clock up_df tickets !! j = Some t'
    ∧ (Sold t = true → t' = t)
    ∧ (t' = t
       ∨ (Sold t = false
          ∧ ∃ k row, up_df !! k = Some row
              ∧ TicketID t = zfill 4 (up_TicketID row)
              ∧ t' = mkTicket (TicketID t) (Type_ t) (Category t) (Admit t) (Seq t)
                              true (up_CustomerName row) (Visited t) (Visitor_Seats t)
                              (Some (clock k)))).
Proof.
  intros Hj. unfold bulk_sale.
  destruct (bulk_loop_row clock 0 (normalize_upload <$> up_df) tickets j t Hj)
    as (t' & Hj' & Hcase).
  exists t'. split; [done|]. split.
  - intros Hs. destruct Hcase as [->|(Hs' & _)]; [done|congruence].
  - destruct Hcase as [->|(Hs & k & row & Hk & Hid & ->)]; [by left|].
    right. split; [done|].
    rewrite list_lookup_fmap in Hk.
    apply fmap_Some in Hk as (row0 & Hk & ->).
    by exists k, row0.
Qed.

Lemma bulk_sale_touches_unsold_only_witness :
  bulk_sale sample_clock [mkUploadRow "8" "Zed"; mkUploadRow "7" "Bob"] sample_tickets
    !! 1%nat
  = Some (mkTicket "0008" "Public" "Gold" 4 (Some 1) true "Dana" false 0 (Some "09:00")).
Proof.
  destruct (bulk_sale_touches_unsold_only sample_clock
              [mkUploadRow "8" "Zed"; mkUploadRow "7" "Bob"] sample_tickets 1
              (mkTicket "0008" "Public" "Gold" 4 (Some 1) true "Dana" false 0
                        (Some "09:00")) eq_refl)
    as (t' & Hj & Hsold & _).
  rewrite Hj. f_equal. by apply Hsold.
Defined.

Lemma bulk_loop_settled clock i rows tickets :
  (∀ row t, row ∈ rows → t ∈ tickets → TicketID t = up_TicketID row → Sold t = true) →
  bulk_loop clock i rows tickets = tickets.
Proof.
  revert i. induction rows as [|r rows IH]; intros i Hall; simpl; [done|].
  rewrite bulk_step_noop.
  - apply IH. intros row t Hrow. apply Hall. by right.
  - intros t. apply Hall. by left.
Qed.

(** X4. With unique ticket ids, uploading a sheet a second time changes
    nothing: the table after the second upload is the table after the first,
    the timestamps of the first upload included. *)
Theorem bulk_sale_twice clock1 clock2 up_df tickets :
  NoDup (TicketID <$> tickets) →
  bulk_sale clock2 up_df (bulk_sale clock1 up_df tickets)
  = bulk_sale clock1 up_df tickets.
Proof.
  intros Hnd. unfold bulk_sale at 1. apply bulk_loop_settled.
  intros row t Hrow Hin Hid. unfold bulk_sale in Hin.
  eapply bulk_loop_settles; [exact Hnd| |exact Hin|exact Hid].
  by apply list_elem_of_fmap_2.
Qed.

Lemma bulk_sale_twice_witness :
  bulk_sale (λ _, "13:00") [mkUploadRow "7" "Bob"; mkUploadRow "10" "Ann"]
    (bulk_sale sample_clock [mkUploadRow "7" "Bob"; mkUploadRow "10" "Ann"] sample_tickets)
  = bulk_sale sample_clock [mkUploadRow "7" "Bob"; mkUploadRow "10" "Ann"] sample_tickets.
Proof.
  exact (bulk_sale_twice sample_clock (λ _, "13:00")
           [mkUploadRow "7" "Bob"; mkUploadRow "10" "Ann"] sample_tickets
           sample_tickets_unique).
Defined.

(** X5. With unique ticket ids, a sheet of one row does what the manual form
    does: when the manual sale of a ticket to a customer is accepted, the
    upload of the single row (id, customer), the id written with or without
    its leading zeros, gives the same table at the same time of day. *)
Theorem bulk_row_is_manual_sale menu ty cat tid raw_id cust now tickets tickets' :
  NoDup (TicketID <$> tickets) →
  manual_sale menu ty cat tid cust now tickets = Some tickets' →
  zfill 4 raw_id = tid →
  bulk_sale (λ _, now) [mkUploadRow raw_id cust] tickets = tickets'.
Proof.
  intros Hnd (idx & t & Hidx & Hi & _ & Havail & ->)%manual_sale_Some <-.
  destruct (offered_unique _ _ _ _ _ Hnd Havail Hidx Hi) as (_ & _ & Hs).
  unfold bulk_sale. simpl. unfold bulk_step. simpl.
  assert (Hfind : list_find (λ t0, TicketID t0 = zfill 4 raw_id ∧ Sold t0 = false) tickets
                  = Some (idx, t)).
  { apply first_index_Some in Hidx as (t0 & Hi0 & Hid & Hleast).
    assert (t0 = t) as -> by congruence.
    apply list_find_Some. split_and!; [done..|].
    intros j u Hj Hlt [Hu _]. by eapply Hleast. }
  rewrite Hfind. by rewrite (alter_thrice _ _ _ _ _ t).
Qed.

Lemma bulk_row_is_manual_sale_witness :
  bulk_sale (λ _, "12:00") [mkUploadRow "7" "Alice"] sample_tickets
  = <[0%nat := mkTicket "0007" "Public" "Gold" 4 (Some 1) true "Alice" false 0
                        (Some "12:00")]> sample_tickets.
Proof.
  apply (bulk_row_is_manual_sale sample_menu Public "Gold" "0007" "7" "Alice" "12:00"
           sample_tickets _ sample_tickets_unique); reflexivity.
Defined.

(** ** How the transitions compose *)

(** X6. With unique ticket ids, a sale cannot be repeated: once the manual
    sale of a ticket is accepted, no manual sale of that ticket (whatever type,
    category and customer are chosen) can be submitted, while its reversal is
    offered; and once the reversal of a sale is accepted, neither a second
    reversal nor a check-in of that ticket can be submitted. *)
Theorem sale_not_twice menu ty cat tid cust now ty2 cat2 cust2 v2 now2 tickets tickets' :
  NoDup (TicketID <$> tickets) →
  (manual_sale menu ty cat tid cust now tickets = Some tickets' →
     manual_sale menu ty2 cat2 tid cust2 now2 tickets' = None
     ∧ tid ∈ sold_list tickets')
  ∧ (reverse_sale tid tickets = Some tickets' →
     reverse_sale tid tickets' = None
     ∧ check_in menu ty2 cat2 tid v2 now2 tickets' = None).
Proof.
  intros Hnd. split.
  - intros (idx & t & Hidx & Hi & _ & _ & ->)%manual_sale_Some. split.
    + unfold manual_sale. rewrite decide_False; [done|]. intros [_ Hoff].
      unfold avail in Hoff.
      apply (offered_row _ _ _ _ _ _ Hnd Hidx Hi) in Hoff; [|done].
      by destruct Hoff as (_ & _ & ?).
    + apply first_index_Some in Hidx as (t0 & Hi0 & <- & _).
      assert (t0 = t) as -> by congruence.
      apply (elem_of_offered (λ t, Sold t = true) _
               (set_Timestamp (Some now) (set_Customer cust (set_Sold true t))));
        [|done].
      eapply list_elem_of_lookup_2, list_lookup_insert_eq. by eapply lookup_lt_Some.
  - intros (idx & t & Hidx & Hi & _ & ->)%reverse_sale_Some. split.
    + unfold reverse_sale. rewrite decide_False; [done|]. intros Hoff.
      unfold sold_list in Hoff.
      by apply (offered_row _ _ _ _ _ _ Hnd Hidx Hi) in Hoff.
    + unfold check_in. rewrite decide_False; [done|]. intros [_ Hoff].
      unfold elig in Hoff.
      apply (offered_row _ _ _ _ _ _ Hnd Hidx Hi) in Hoff; [|done].
      by destruct Hoff as (_ & _ & ? & _).
Qed.

Lemma sale_not_twice_witness :
  manual_sale sample_menu Public "Gold" "0007" "Bea" "12:30"
    (<[0%nat := mkTicket "0007" "Public" "Gold" 4 (Some 1) true "Alice" false 0
                         (Some "12:00")]> sample_tickets) = None
  ∧ reverse_sale "0008"
      (<[1%nat := mkTicket "0008" "Public" "Gold" 4 (Some 1) false "" false 0 None]>
         sample_tickets) = None.
Proof.
  split.
  - destruct (sale_not_twice sample_menu Public "Gold" "0007" "Alice" "12:00"
                Public "Gold" "Bea" 1 "12:30" sample_tickets
                (<[0%nat := mkTicket "0007" "Public" "Gold" 4 (Some 1) true "Alice"
                                     false 0 (Some "12:00")]> sample_tickets)
                sample_tickets_unique) as [Hsale _].
    apply Hsale. reflexivity.
  - destruct (sale_not_twice sample_menu Public "Gold" "0008" "" "" Public "Gold" "" 1 ""
                sample_tickets
                (<[1%nat := mkTicket "0008" "Public" "Gold" 4 (Some 1) false "" false 0
                                     None]> sample_tickets)
                sample_tickets_unique) as [_ Hrev].
    apply Hrev. reflexivity.
Defined.

(** X7. With unique ticket ids, a check-in cannot be repeated: once the
    check-in of a ticket is accepted, no further check-in of it can be
    submitted until the entry is reversed, which is then offered; and once
    the reversal of an entry is accepted, it cannot be submitted again. *)
Theorem check_in_not_twice menu ty cat tid v now ty2 cat2 v2 now2 tickets tickets' :
  NoDup (TicketID <$> tickets) →
  (check_in menu ty cat tid v now tickets = Some tickets' →
     check_in menu ty2 cat2 tid v2 now2 tickets' = None
     ∧ tid ∈ visited_list tickets')
  ∧ (reverse_entry tid tickets = Some tickets' →
     reverse_entry tid tickets' = None).
Proof.
  intros Hnd. split.
  - intros (idx & t & w & Hidx & Hi & _ & _ & _ & _ & ->)%check_in_Some. split.
    + unfold check_in. rewrite decide_False; [done|]. intros [_ Hoff].
      unfold elig in Hoff.
      apply (offered_row _ _ _ _ _ _ Hnd Hidx Hi) in Hoff; [|done].
      by destruct Hoff as (_ & _ & _ & ?).
    + apply first_index_Some in Hidx as (t0 & Hi0 & <- & _).
      assert (t0 = t) as -> by congruence.
      apply (elem_of_offered (λ t, Visited t = true) _
               (set_Timestamp (Some now) (set_Visitor_Seats w (set_Visited true t))));
        [|done].
      eapply list_elem_of_lookup_2, list_lookup_insert_eq. by eapply lookup_lt_Some.
  - intros (idx & t & Hidx & Hi & _ & ->)%reverse_entry_Some.
    unfold reverse_entry. rewrite decide_False; [done|]. intros Hoff.
    unfold visited_list in Hoff.
    by apply (offered_row _ _ _ _ _ _ Hnd Hidx Hi) in Hoff.
Qed.

Lemma check_in_not_twice_witness :
  check_in sample_menu Public "Gold" "0008" 1 "11:30"
    (<[1%nat := mkTicket "0008" "Public" "Gold" 4 (Some 1) true "Dana" true 2
                         (Some "11:00")]> sample_tickets) = None
  ∧ reverse_entry "0009"
      (<[2%nat := mkTicket "0009" "Public" "Gold" 4 (Some 1) true "Eli" false 0
                           (Some "10:00")]> sample_tickets) = None.
Proof.
  split.
  - destruct (check_in_not_twice sample_menu Public "Gold" "0008" 2 "11:00"
                Public "Gold" 1 "11:30" sample_tickets
                (<[1%nat := mkTicket "0008" "Public" "Gold" 4 (Some 1) true "Dana"
                                     true 2 (Some "11:00")]> sample_tickets)
                sample_tickets_unique) as [Hin _].
    apply Hin. reflexivity.
  - destruct (check_in_not_twice sample_menu Public "Gold" "0009" 0 "" Public "Gold" 0 ""
                sample_tickets
                (<[2%nat := mkTicket "0009" "Public" "Gold" 4 (Some 1) true "Eli" false 0
                                     (Some "10:00")]> sample_tickets)
                sample_tickets_unique) as [_ Hrev].
    apply Hrev. reflexivity.
Defined.

(** X8. With unique ticket ids, a check-in followed by the reversal of the
    entry is accepted and is not a round trip: the ticket is again not
    visited with no visitor seats, but its Timestamp is the time of the
    check-in and no longer the time of its sale; nothing else has changed. *)
Theorem check_in_then_reversal menu ty cat v now tickets tickets' i t :
  NoDup (TicketID <$> tickets) →
  tickets !! i = Some t →
  check_in menu ty cat (TicketID t) v now tickets = Some tickets' →
  reverse_entry (TicketID t) tickets'
  = Some (<[i := mkTicket (TicketID t) (Type_ t) (Category t) (Admit t) (Seq t)
                          (Sold t) (Customer t) false 0 (Some now)]> tickets).
Proof.
  intros Hnd Hi (idx & t0 & w & Hidx & Hi0 & _ & _ & _ & _ & ->)%check_in_Some.
  pose proof (unique_first_index _ _ _ Hnd Hi) as Hidx'.
  assert (idx = i) as -> by congruence. assert (t0 = t) as -> by congruence.
  set (t1 := set_Timestamp (Some now) (set_Visitor_Seats w (set_Visited true t))).
  assert (Hi1 : <[i := t1]> tickets !! i = Some t1).
  { apply list_lookup_insert_eq. by eapply lookup_lt_Some. }
  unfold reverse_entry. rewrite decide_True.
  - rewrite (reverse_entry_mutation_at _ _ i t1);
      [|by apply first_index_insert|done].
    by rewrite list_insert_insert_eq.
  - change (TicketID t) with (TicketID t1).
    apply elem_of_offered; [|done]. by eapply list_elem_of_lookup_2.
Qed.

Lemma check_in_then_reversal_witness :
  reverse_entry "0008"
    (<[1%nat := mkTicket "0008" "Public" "Gold" 4 (Some 1) true "Dana" true 2
                         (Some "11:00")]> sample_tickets)
  = Some (<[1%nat := mkTicket "0008" "Public" "Gold" 4 (Some 1) true "Dana" false 0
                              (Some "11:00")]> sample_tickets).
Proof.
  exact (check_in_then_reversal sample_menu Public "Gold" 2 "11:00" sample_tickets _ 1
           (mkTicket "0008" "Public" "Gold" 4 (Some 1) true "Dana" false 0 (Some "09:00"))
           sample_tickets_unique eq_refl eq_refl).
Defined.

(** ** Reset *)

Lemma filter_none {A} (P : A → Prop) `{!∀ x, Decision (P x)} (l : list A) :
  Forall (λ x, ¬ P x) l → filter P l = [].
Proof.
  induction 1 as [|x l Hx _ IH]; [done|]. by rewrite filter_cons_False.
Qed.

Lemma reset_row_invariants t :
  0 ≤ Admit t →
  seats_within_admit (reset_row t) ∧ unsold_is_blank (reset_row t)
  ∧ unvisited_has_no_seats (reset_row t).
Proof.
  intros Ht. unfold seats_within_admit, unsold_is_blank, unvisited_has_no_seats.
  change (Visitor_Seats (reset_row t)) with 0.
  change (Admit (reset_row t)) with (Admit t).
  split; [lia|]. by split.
Qed.

(** X9. The reset is refused with any password but the configured one and
    then writes nothing. With the password it keeps the rows and their
    identity columns, leaves every ticket not sold and not visited with an
    empty customer, no visitor seats and no timestamp, so that no reversal is
    on offer afterwards; a second reset changes nothing more; and the cleared
    table satisfies Visited ⇒ Sold and, where no Admit is negative, the other
    invariants of a ticket row. *)
Theorem reset_clears admin_pass tickets :
  (admin_pass ≠ "admin123" → reset_database admin_pass tickets = None)
  ∧ ∃ cleared,
      reset_database "admin123" tickets = Some cleared
      ∧ identity <$> cleared = identity <$> tickets
      ∧ Forall (λ t, Sold t = false ∧ Visited t = false ∧ Customer t = ""
                     ∧ Visitor_Seats t = 0 ∧ Timestamp t = None) cleared
      ∧ sold_list cleared = [] ∧ visited_list cleared = []
      ∧ reset_database "admin123" cleared = Some cleared
      ∧ visited_implies_sold cleared
      ∧ (Forall (λ t, 0 ≤ Admit t) tickets → row_invariants cleared).
Proof.
  split.
  - intros Hpw. unfold reset_database. by rewrite decide_False.
  - exists (reset_row <$> tickets).
    assert (Hclear : Forall (λ t, Sold t = false ∧ Visited t = false ∧ Customer t = ""
                                  ∧ Visitor_Seats t = 0 ∧ Timestamp t = None)
                            (reset_row <$> tickets)).
    { apply Forall_fmap, Forall_true. by intros t. }
    split_and!; try done.
    + by rewrite <-list_fmap_compose.
    + unfold sold_list. rewrite filter_none; [done|].
      eapply Forall_impl; [exact Hclear|]. intros t (Hs & _). congruence.
    + unfold visited_list. rewrite filter_none; [done|].
      eapply Forall_impl; [exact Hclear|]. intros t (_ & Hv & _). congruence.
    + unfold reset_database. simpl. f_equal.
      rewrite <-list_fmap_compose. apply list_fmap_ext. by intros _ t _.
    + eapply Forall_impl; [exact Hclear|]. intros t (_ & Hv & _). congruence.
    + intros Hadm. unfold row_invariants. rewrite Forall_fmap.
      eapply Forall_impl; [exact Hadm|]. intros t Ht.
      by apply reset_row_invariants.
Qed.

(** ** Invariants along a session *)

Lemma row_invariants_insert tickets idx t' :
  row_invariants tickets →
  seats_within_admit t' ∧ unsold_is_blank t' ∧ unvisited_has_no_seats t' →
  row_invariants (<[idx := t']> tickets).
Proof. intros Hinv Ht. by apply Forall_insert. Qed.

Lemma row_invariants_lookup tickets idx t :
  row_invariants tickets → tickets !! idx = Some t →
  seats_within_admit t ∧ unsold_is_blank t ∧ unvisited_has_no_seats t.
Proof.
  intros Hinv Hi. unfold row_invariants in Hinv. rewrite Forall_forall in Hinv.
  apply Hinv. by eapply list_elem_of_lookup_2.
Qed.

Lemma bulk_loop_row_invariants clock i rows tickets :
  row_invariants tickets → row_invariants (bulk_loop clock i rows tickets).
Proof.
  revert i tickets. induction rows as [|r rows IH]; intros i tickets Hinv; [done|].
  simpl. apply IH.
  destruct (bulk_step_cases (clock i) r tickets) as [(idx & t & Hfind & ->)|[_ ->]];
    [|done].
  apply list_find_Some in Hfind as (Hi & _ & _).
  destruct (row_invariants_lookup _ _ _ Hinv Hi) as (Hs & _ & Hv).
  apply row_invariants_insert; [done|]. by split_and!.
Qed.

Lemma run_keeps_row_invariants menu a tickets :
  NoDup (TicketID <$> tickets) →
  row_invariants tickets →
  row_invariants (run menu a tickets).
Proof.
  intros Hnd Hinv.
  destruct a as [ty cat tid cust now|clock up_df|tid|ty cat tid v now|tid|pw]; simpl.
  - destruct (manual_sale _ _ _ _ _ _ _) as [tickets'|] eqn:Hm; [|done]. simpl.
    apply manual_sale_Some in Hm as (idx & t & _ & Hi & _ & _ & ->).
    destruct (row_invariants_lookup _ _ _ Hinv Hi) as (Hs & _ & Hv).
    apply row_invariants_insert; [done|]. by split_and!.
  - by apply bulk_loop_row_invariants.
  - destruct (reverse_sale _ _) as [tickets'|] eqn:Hm; [|done]. simpl.
    apply reverse_sale_Some in Hm as (idx & t & _ & Hi & _ & ->).
    destruct (row_invariants_lookup _ _ _ Hinv Hi) as (Hs & _ & Hv).
    apply row_invariants_insert; [done|]. by split_and!.
  - destruct (check_in _ _ _ _ _ _ _) as [tickets'|] eqn:Hm; [|done]. simpl.
    apply check_in_Some in Hm as (idx & t & w & Hidx & Hi & _ & Helig & _ & Hv & ->).
    destruct (offered_unique _ _ _ _ _ Hnd Helig Hidx Hi) as (_ & _ & Hsold & _).
    apply row_invariants_insert; [done|].
    unfold seats_within_admit, unsold_is_blank, unvisited_has_no_seats.
    split; [|split].
    + change (0 ≤ w ≤ Admit t). lia.
    + simpl. intros ?; congruence.
    + done.
  - destruct (reverse_entry _ _) as [tickets'|] eqn:Hm; [|done]. simpl.
    apply reverse_entry_Some in Hm as (idx & t & _ & Hi & _ & ->).
    destruct (row_invariants_lookup _ _ _ Hinv Hi) as (Hs & Hb & _).
    apply row_invariants_insert; [done|].
    unfold seats_within_admit, unsold_is_blank, unvisited_has_no_seats in *.
    split; [|by split].
    change (0 ≤ 0 ≤ Admit t). lia.
  - unfold reset_database. case_decide; [|done]. simpl.
    unfold row_invariants in *. rewrite Forall_fmap.
    eapply Forall_impl; [exact Hinv|]. intros t (Hs & _ & _).
    apply reset_row_invariants. unfold seats_within_admit in Hs. lia.
Qed.

(** X10. With unique ticket ids, every sequence of actions (manual and bulk
    sales, reversals, check-ins, entry reversals, resets, whether accepted or
    refused) keeps the ids unique and keeps, for every ticket,
    0 <= Visitor_Seats <= Admit, an unsold ticket without customer and
    timestamp, and a not visited ticket without visitor seats. *)
Theorem run_all_keeps_row_invariants menu actions tickets :
  NoDup (TicketID <$> tickets) →
  row_invariants tickets →
  NoDup (TicketID <$> run_all menu actions tickets)
  ∧ row_invariants (run_all menu actions tickets).
Proof.
  intros Hnd Hinv. split; [by rewrite run_all_ids|].
  revert tickets Hnd Hinv. induction actions as [|a rest IH]; intros tickets Hnd Hinv.
  - done.
  - unfold run_all. simpl. apply IH.
    + by rewrite run_ids.
    + by apply run_keeps_row_invariants.
Qed.

Lemma run_all_keeps_row_invariants_witness :
  row_invariants
    (run_all sample_menu
       [ ManualSale Public "Gold" "0007" "Alice" "12:00";
         Entry Public "Gold" "0007" 4 "12:30";
         ReverseSale "0009";
         ReverseEntry "0007";
         BulkSale sample_clock [mkUploadRow "10" "Ann"] ]
       sample_tickets).
Proof.
  apply (run_all_keeps_row_invariants sample_menu _ sample_tickets sample_tickets_unique).
  compute_done.
Defined.

(** X11. With unique ticket ids, a sequence of actions in which no sale of a
    checked-in ticket is reversed keeps Visited ⇒ Sold for every ticket: the
    reversal of the sale of a visited ticket is the only action that can
    break it. *)
Theorem visited_implies_sold_along_runs menu actions tickets :
  NoDup (TicketID <$> tickets) →
  visited_implies_sold tickets →
  never_reverses_visited menu actions tickets →
  visited_implies_sold (run_all menu actions tickets).
Proof. apply run_all_keeps_visited_implies_sold. Qed.

Lemma visited_implies_sold_along_runs_witness :
  visited_implies_sold
    (run_all sample_menu
       [ ManualSale Public "Gold" "0007" "Alice" "12:00";
         Entry Public "Gold" "0007" 4 "12:30";
         ReverseEntry "0009";
         ReverseSale "0009" ]
       sample_tickets).
Proof.
  apply (visited_implies_sold_along_runs sample_menu _ sample_tickets
           sample_tickets_unique).
  - compute_done.
  - simpl. split_and!; [tauto|tauto|tauto|compute_done|done].
Defined.

(** ** custom_sort: when it raises, and what it returns *)

(** X12. A frame without a Seq column is returned as it is. With a Seq column
    the sort raises exactly when some Seq cell has no sort key (a NaN, or a
    string other than "0" that int() rejects); so one NaN cell is enough to
    raise. When it does not raise, the result has the rows of the frame, each
    as often as before, hence as many. *)
Theorem custom_sort_outcome {A} (col : A → SeqCell) (df : list A) :
  custom_sort None df = Some df
  ∧ (is_Some (custom_sort (Some col) df)
     ↔ Forall (λ a, is_Some (sort_key (col a))) df)
  ∧ (∀ a, a ∈ df → col a = SeqNaN → custom_sort (Some col) df = None)
  ∧ (∀ out, custom_sort (Some col) df = Some out →
       out ≡ₚ df ∧ length out = length df).
Proof.
  assert (Hiff : is_Some (custom_sort (Some col) df)
                 ↔ Forall (λ a, is_Some (sort_key (col a))) df).
  { unfold custom_sort. rewrite <-(mapM_is_Some (sort_key ∘ col) df).
    destruct (mapM (sort_key ∘ col) df); simpl; split; intros [? ?]; by eauto. }
  split_and!; [done|exact Hiff|..].
  - intros a Hin Hnan. apply eq_None_not_Some. rewrite Hiff, Forall_forall.
    intros Hall. specialize (Hall a Hin). rewrite Hnan in Hall. by destruct Hall.
  - intros out (keyed & _ & Hperm & _)%custom_sort_keyed.
    split; [done|]. by rewrite Hperm.
Qed.

(** ** Recent sales and recent visitor entries *)

Global Instance timestamp_desc_trans : Transitive timestamp_desc.
Proof.
  intros t1 t2 t3. unfold timestamp_desc.
  destruct (Timestamp t1), (Timestamp t2), (Timestamp t3); try done.
  intros H12 H23. by transitivity s0.
Qed.

Global Instance timestamp_desc_total : Total timestamp_desc.
Proof.
  intros t1 t2. unfold timestamp_desc.
  destruct (Timestamp t1) as [a|], (Timestamp t2) as [b|]; auto.
  destruct (total String.le a b); auto.
Qed.

Lemma StronglySorted_lookup_lt {A} (R : relation A) (l : list A) i j x y :
  StronglySorted R l → (i < j)%nat →
  l !! i = Some x → l !! j = Some y → R x y.
Proof.
  intros Hs. revert i j. induction Hs as [|z l Hs IH Hall]; intros i j Hlt Hi Hj.
  - done.
  - destruct j as [|j]; [lia|]. simpl in Hj. destruct i as [|i]; simpl in Hi.
    + injection Hi as ->. rewrite Forall_forall in Hall.
      apply Hall. by eapply list_elem_of_lookup_2.
    + eapply IH; [|done..]. lia.
Qed.

Lemma numbered_history_listing (P : Ticket → Prop) `{!∀ t, Decision (P t)} tickets :
  (numbered_history P tickets).*2 ≡ₚ filter P tickets
  ∧ (numbered_history P tickets).*1
    = Z.of_nat <$> seq 1 (length (filter P tickets))
  ∧ (∀ i j r1 r2, (i < j)%nat →
       numbered_history P tickets !! i = Some r1 →
       numbered_history P tickets !! j = Some r2 →
       timestamp_desc r1.2 r2.2).
Proof.
  unfold numbered_history.
  set (recent := merge_sort timestamp_desc (filter P tickets)).
  assert (Hperm : recent ≡ₚ filter P tickets) by apply merge_sort_Permutation.
  assert (Hlen : length (Z.of_nat <$> seq 1 (length recent)) = length recent).
  { by rewrite length_fmap, length_seq. }
  assert (Hsnd : (zip (Z.of_nat <$> seq 1 (length recent)) recent).*2 = recent).
  { apply snd_zip. lia. }
  split_and!.
  - by rewrite Hsnd.
  - rewrite fst_zip by lia. by rewrite Hperm.
  - intros i j r1 r2 Hlt Hi Hj.
    eapply (StronglySorted_lookup_lt timestamp_desc recent i j).
    + apply StronglySorted_merge_sort; apply _.
    + done.
    + by rewrite <-Hsnd, list_lookup_fmap, Hi.
    + by rewrite <-Hsnd, list_lookup_fmap, Hj.
Qed.

(** X13. The sales history lists exactly the sold tickets, each once, and the
    visitor history exactly the visited tickets; the Sno column numbers the
    rows 1, 2, ... from the top; and the rows are ordered by Timestamp, later
    ones first, rows without a timestamp last. *)
Theorem recent_histories tickets :
  ((recent_sales tickets).*2 ≡ₚ filter (λ t, Sold t = true) tickets
   ∧ (recent_sales tickets).*1
     = Z.of_nat <$> seq 1 (length (filter (λ t, Sold t = true) tickets))
   ∧ (∀ i j r1 r2, (i < j)%nat →
        recent_sales tickets !! i = Some r1 → recent_sales tickets !! j = Some r2 →
        timestamp_desc r1.2 r2.2))
  ∧ ((recent_visitors tickets).*2 ≡ₚ filter (λ t, Visited t = true) tickets
     ∧ (recent_visitors tickets).*1
       = Z.of_nat <$> seq 1 (length (filter (λ t, Visited t = true) tickets))
     ∧ (∀ i j r1 r2, (i < j)%nat →
          recent_visitors tickets !! i = Some r1 → recent_visitors tickets !! j = Some r2 →
          timestamp_desc r1.2 r2.2)).
Proof. split; apply numbered_history_listing. Qed.

(** ** More on the dashboard *)

Lemma fmap_ext_all {A B} (f g : A → B) (l : list A) :
  (∀ x, f x = g x) → f <$> l = g <$> l.
Proof. intros Hfg. apply list_fmap_ext. intros _ x _. apply Hfg. Qed.


Lemma foldr_add_zero {A} (f : A → Z) (l : list A) :
  (∀ x, x ∈ l → f x = 0) → foldr Z.add 0 (f <$> l) = 0.
Proof.
  induction l as [|x l IH]; intros Hall; [done|]. rewrite fmap_cons. simpl foldr.
  rewrite IH by (intros y Hy; apply Hall; by right).
  rewrite (Hall x) by by left. done.
Qed.



Lemma group_of_cons k t df :
  group_of k (t :: df)
  = if decide (group_key t = Some k) then t :: group_of k df else group_of k df.
Proof. unfold group_of. by rewrite filter_cons. Qed.



Lemma agg_sold_sum g :
  agg_sold g = foldr Z.add 0 ((λ t, if Sold t then 1 else 0) <$> g).
Proof. done. Qed.



Lemma agg_sold_bounds g : 0 ≤ agg_sold g ≤ agg_count g.
Proof.
  rewrite agg_sold_count. unfold agg_count.
  pose proof (length_filter (λ t, Sold t = true) g). lia.
Qed.

Lemma agg_visitors_bounds adm g :
  (∀ t, t ∈ g → 0 ≤ Visitor_Seats t ≤ (if Sold t then adm else 0)) →
  0 ≤ agg_visitors g ≤ agg_sold g * adm.
Proof.
  unfold agg_visitors, agg_sold. induction g as [|t g IH]; intros Hall.
  - simpl. lia.
  - rewrite !fmap_cons. simpl foldr.
    pose proof (Hall t (list_elem_of_here _ _)) as Ht.
    assert (0 ≤ foldr Z.add 0 (Visitor_Seats <$> g)
            ≤ foldr Z.add 0 ((λ t, if Sold t then 1 else 0) <$> g) * adm) as Hg.
    { apply IH. intros t' Ht'. apply Hall. by right. }
    destruct (Sold t); lia.
Qed.

(** X15. On a ticket table that satisfies the invariants of a ticket row and
    Visited ⇒ Sold, no line of the summary goes negative: in every group
    0 <= Tickets_Sold <= Total_Tickets, 0 <= Total_Visitors <= Seats_sold
    <= Total_Seats, and Balance_Tickets, Balance_Seats and Balance_Visitors
    are not negative. *)
Theorem balances_not_negative df :
  visited_implies_sold df →
  row_invariants df →
  ∃ s, summary df = Some s
    ∧ ∀ r, r ∈ s →
        0 ≤ Tickets_Sold r ≤ Total_Tickets r
        ∧ 0 ≤ Total_Visitors r ≤ Seats_sold r
        ∧ Seats_sold r ≤ Total_Seats r
        ∧ 0 ≤ Balance_Tickets r ∧ 0 ≤ Balance_Seats r ∧ 0 ≤ Balance_Visitors r.
Proof.
  intros Hvs Hinv. destruct (summary_total df) as (s & Hs & Hperm).
  exists s. split; [done|]. intros r Hr. rewrite Hperm in Hr.
  apply list_elem_of_fmap in Hr as ([[[seq ty] cat] adm] & -> & Hk).
  pose proof (agg_sold_bounds (group_of (seq, ty, cat, adm) df)) as Hsold.
  assert (Hmember : ∀ t, t ∈ group_of (seq, ty, cat, adm) df →
            0 ≤ adm ∧ 0 ≤ Visitor_Seats t ≤ (if Sold t then adm else 0)).
  { intros t [Hkey Hin]%list_elem_of_filter.
    apply group_key_in_group in Hkey as (_ & _ & _ & Hadm).
    unfold row_invariants in Hinv. rewrite Forall_forall in Hinv.
    destruct (Hinv t Hin) as (Hseats & _ & Hnoseat).
    unfold visited_implies_sold in Hvs. rewrite Forall_forall in Hvs.
    specialize (Hvs t Hin).
    unfold seats_within_admit in Hseats. unfold unvisited_has_no_seats in Hnoseat.
    split; [lia|]. destruct (Sold t) eqn:Hst; [lia|].
    destruct (Visited t); [by specialize (Hvs eq_refl)|].
    rewrite Hnoseat by done. lia. }
  assert (0 ≤ adm) as Hadm.
  { apply elem_of_group_keys in Hk as (t & Hin & Hkey).
    by destruct (Hmember t) as [Hb _]; [by apply list_elem_of_filter|]. }
  pose proof (agg_visitors_bounds adm (group_of (seq, ty, cat, adm) df)
                (λ t Ht, proj2 (Hmember t Ht))) as Hvis.
  simpl. nia.
Qed.

Lemma balances_not_negative_witness :
  ∃ s, summary sample_tickets = Some s
    ∧ ∀ r, r ∈ s →
        0 ≤ Tickets_Sold r ≤ Total_Tickets r
        ∧ 0 ≤ Total_Visitors r ≤ Seats_sold r
        ∧ Seats_sold r ≤ Total_Seats r
        ∧ 0 ≤ Balance_Tickets r ∧ 0 ≤ Balance_Seats r ∧ 0 ≤ Balance_Visitors r.
Proof. apply (balances_not_negative sample_tickets); compute_done. Defined.

(** *** The dashboard and the actions *)

Lemma identity_insert (tickets : list Ticket) idx t t' :
  tickets !! idx = Some t → identity t' = identity t →
  identity <$> <[idx := t']> tickets = identity <$> tickets.
Proof.
  intros Hi Hid. rewrite list_fmap_insert. apply list_insert_id.
  by rewrite list_lookup_fmap, Hi, Hid.
Qed.

Lemma bulk_loop_identity clock i rows tickets :
  identity <$> bulk_loop clock i rows tickets = identity <$> tickets.
Proof.
  revert i tickets. induction rows as [|r rows IH]; intros i tickets; simpl; [done|].
  rewrite IH.
  destruct (bulk_step_cases (clock i) r tickets) as [(idx & t & Hfind & ->)|[_ ->]];
    [|done].
  apply list_find_Some in Hfind as (Hi & _ & _). by apply (identity_insert _ _ t).
Qed.

(** No action writes to the identity columns of a ticket. *)
Lemma run_identity menu a tickets :
  identity <$> run menu a tickets = identity <$> tickets.
Proof.
  destruct a as [ty cat tid cust now|clock up_df|tid|ty cat tid v now|tid|pw]; simpl.
  - destruct (manual_sale _ _ _ _ _ _ _) as [tickets'|] eqn:Hm; [|done]. simpl.
    apply manual_sale_Some in Hm as (idx & t & _ & Hi & _ & _ & ->).
    by apply (identity_insert _ _ t).
  - apply bulk_loop_identity.
  - destruct (reverse_sale _ _) as [tickets'|] eqn:Hm; [|done]. simpl.
    apply reverse_sale_Some in Hm as (idx & t & _ & Hi & _ & ->).
    by apply (identity_insert _ _ t).
  - destruct (check_in _ _ _ _ _ _ _) as [tickets'|] eqn:Hm; [|done]. simpl.
    apply check_in_Some in Hm as (idx & t & w & _ & Hi & _ & _ & _ & _ & ->).
    by apply (identity_insert _ _ t).
  - destruct (reverse_entry _ _) as [tickets'|] eqn:Hm; [|done]. simpl.
    apply reverse_entry_Some in Hm as (idx & t & _ & Hi & _ & ->).
    by apply (identity_insert _ _ t).
  - unfold reset_database. case_decide; [|done]. simpl.
    by rewrite <-list_fmap_compose.
Qed.

Lemma run_all_identity menu actions tickets :
  identity <$> run_all menu actions tickets = identity <$> tickets.
Proof.
  revert tickets. induction actions as [|a rest IH]; intros tickets; [done|].
  unfold run_all in *. simpl. by rewrite IH, run_identity.
Qed.

Lemma identity_group_key t t' : identity t' = identity t → group_key t' = group_key t.
Proof. unfold identity, group_key. by intros [= _ -> -> -> ->]. Qed.

Lemma identity_groups df df' :
  identity <$> df' = identity <$> df →
  omap group_key df' = omap group_key df
  ∧ ∀ k, length (group_of k df') = length (group_of k df).
Proof.
  revert df'. induction df as [|t df IH]; intros [|t' df'] Hid; try done.
  rewrite !fmap_cons in Hid. apply (inj2 cons) in Hid as [Ht Hrest].
  destruct (IH df' Hrest) as [Hkeys Hlen].
  pose proof (identity_group_key _ _ Ht) as Hk. split.
  - change (omap group_key (t' :: df'))
      with (from_option (λ y, y :: omap group_key df') (omap group_key df') (group_key t')).
    change (omap group_key (t :: df))
      with (from_option (λ y, y :: omap group_key df) (omap group_key df) (group_key t)).
    by rewrite Hk, Hkeys.
  - intros k. rewrite !group_of_cons, Hk. case_decide; simpl; by rewrite Hlen.
Qed.

Lemma grouped_sizes_identity df df' :
  identity <$> df' = identity <$> df →
  group_size <$> grouped df' = group_size <$> grouped df.
Proof.
  intros [Hkeys Hlen]%identity_groups. unfold grouped, group_keys.
  rewrite Hkeys, <-!list_fmap_compose. apply fmap_ext_all.
  intros [[[seq ty] cat] adm]. unfold group_size, compose. simpl.
  unfold agg_count. by rewrite Hlen.
Qed.

Lemma sum_perm (l1 l2 : list Z) : l1 ≡ₚ l2 → foldr Z.add 0 l1 = foldr Z.add 0 l2.
Proof.
  induction 1 as [|x l1 l2 _ IH|x y l|l1 l2 l3 _ IH1 _ IH2]; simpl; lia.
Qed.

Lemma col_sum_of_sizes (col : SummaryRow → Z) proj s s' :
  (∀ r, col r = proj (group_size r)) →
  group_size <$> s' ≡ₚ group_size <$> s →
  col_sum col s' = col_sum col s.
Proof.
  intros Hcol Hsizes. unfold col_sum.
  rewrite !(fmap_ext_all col (proj ∘ group_size)) by done.
  rewrite !list_fmap_compose. apply sum_perm. by rewrite Hsizes.
Qed.

(** X16. No sequence of actions changes the size of the inventory on the
    dashboard: before and after, the summary has the same groups with the
    same Total_Tickets and Total_Seats, and so has the Total row. *)
Theorem group_sizes_along_runs menu actions tickets :
  ∃ s s', summary tickets = Some s
    ∧ summary (run_all menu actions tickets) = Some s'
    ∧ group_size <$> s' ≡ₚ group_size <$> s
    ∧ Total_Tickets (totals s') = Total_Tickets (totals s)
    ∧ Total_Seats (totals s') = Total_Seats (totals s).
Proof.
  destruct (summary_total tickets) as (s & Hs & Hperm).
  destruct (summary_total (run_all menu actions tickets)) as (s' & Hs' & Hperm').
  exists s, s'.
  assert (Hsizes : group_size <$> s' ≡ₚ group_size <$> s).
  { rewrite Hperm, Hperm'.
    by rewrite (grouped_sizes_identity tickets (run_all menu actions tickets))
      by apply run_all_identity. }
  split_and!; [done..| |].
  - by apply (col_sum_of_sizes Total_Tickets (λ g, g.1.2)).
  - by apply (col_sum_of_sizes Total_Seats (λ g, g.2)).
Qed.

(** X17. After a reset the dashboard shows an untouched inventory: in every
    group Tickets_Sold, Seats_sold and Total_Visitors are 0, Balance_Tickets
    is Total_Tickets, Balance_Seats is Total_Seats and Balance_Visitors is
    0. *)
Theorem dashboard_after_reset tickets :
  ∃ cleared s,
    reset_database "admin123" tickets = Some cleared
    ∧ summary cleared = Some s
    ∧ ∀ r, r ∈ s →
        Tickets_Sold r = 0 ∧ Seats_sold r = 0 ∧ Total_Visitors r = 0
        ∧ Balance_Tickets r = Total_Tickets r
        ∧ Balance_Seats r = Total_Seats r
        ∧ Balance_Visitors r = 0.
Proof.
  exists (reset_row <$> tickets).
  destruct (summary_total (reset_row <$> tickets)) as (s & Hs & Hperm).
  exists s. split_and!; [done..|]. intros r Hr. rewrite Hperm in Hr.
  apply list_elem_of_fmap in Hr as ([[[seq ty] cat] adm] & -> & _).
  assert (Hcleared : ∀ t, t ∈ group_of (seq, ty, cat, adm) (reset_row <$> tickets) →
            Sold t = false ∧ Visitor_Seats t = 0).
  { intros t [_ Hin]%list_elem_of_filter.
    by apply list_elem_of_fmap in Hin as (t0 & -> & _). }
  assert (agg_sold (group_of (seq, ty, cat, adm) (reset_row <$> tickets)) = 0) as Hsold.
  { apply foldr_add_zero. intros t Ht. by rewrite (proj1 (Hcleared t Ht)). }
  assert (agg_visitors (group_of (seq, ty, cat, adm) (reset_row <$> tickets)) = 0) as Hvis.
  { apply foldr_add_zero. intros t Ht. apply Hcleared, Ht. }
  simpl. rewrite Hsold, Hvis. lia.
Qed.

Lemma sum_group_insert (f : Ticket → Z) k df i t t' :
  df !! i = Some t → group_key t' = group_key t →
  foldr Z.add 0 (f <$> group_of k (<[i := t']> df))
  = foldr Z.add 0 (f <$> group_of k df)
    + (if decide (group_key t = Some k) then f t' - f t else 0).
Proof.
  intros Hi Hk. revert i Hi. induction df as [|u df IH]; intros [|i] Hi; try done.
  - simpl in Hi. injection Hi as ->.
    change (<[0%nat := t']> (t :: df)) with (t' :: df).
    rewrite !group_of_cons, Hk.
    destruct (decide (group_key t = Some k)); rewrite ?fmap_cons; simpl foldr; lia.
  - simpl in Hi.
    change (<[S i := t']> (u :: df)) with (u :: <[i := t']> df).
    rewrite !group_of_cons.
    destruct (decide (group_key u = Some k)); rewrite ?fmap_cons; simpl foldr;
      rewrite (IH i Hi); lia.
Qed.

Lemma ticket_row_key_group t seq ty cat adm :
  Some (row_key (mkSummaryRow (SeqNum seq) (Some ty) (Some cat) adm 0 0 0 0 0 0 0 0))
    = ticket_row_key t
  ↔ group_key t = Some (seq, ty, cat, adm).
Proof.
  unfold ticket_row_key, group_key, row_key. simpl.
  destruct (Seq t) as [s|]; simpl; [|done].
  split; intros ?; by simplify_eq.
Qed.

Lemma summary_row_ext seq ty cat adm n1 n2 n3 n4 n5 n6 n7 n8 m1 m2 m3 m4 m5 m6 m7 m8 :
  n1 = m1 → n2 = m2 → n3 = m3 → n4 = m4 → n5 = m5 → n6 = m6 → n7 = m7 → n8 = m8 →
  mkSummaryRow seq ty cat adm n1 n2 n3 n4 n5 n6 n7 n8
  = mkSummaryRow seq ty cat adm m1 m2 m3 m4 m5 m6 m7 m8.
Proof. by intros -> -> -> -> -> -> -> ->. Qed.

(** Rewriting one ticket without touching its identity columns shifts the
    summary row of its group and no other. *)
Lemma grouped_insert df i t t' :
  df !! i = Some t → identity t' = identity t →
  grouped (<[i := t']> df)
  = shift_group_of t ((if Sold t' then 1 else 0) - (if Sold t then 1 else 0))
      (Visitor_Seats t' - Visitor_Seats t) (grouped df).
Proof.
  intros Hi Hid.
  pose proof (identity_group_key _ _ Hid) as Hk.
  destruct (identity_groups df (<[i := t']> df)) as [Hkeys Hlen].
  { by apply (identity_insert _ _ t). }
  unfold shift_group_of, grouped, group_keys. rewrite Hkeys, <-list_fmap_compose.
  apply fmap_ext_all. intros [[[seq ty] cat] adm]. unfold compose.
  pose proof (sum_group_insert (λ t, if Sold t then 1 else 0) (seq, ty, cat, adm)
                df i t t' Hi Hk) as Hsold.
  pose proof (sum_group_insert Visitor_Seats (seq, ty, cat, adm) df i t t' Hi Hk) as Hvis.
  specialize (Hlen (seq, ty, cat, adm)).
  rewrite (decide_ext _ (group_key t = Some (seq, ty, cat, adm)))
    by apply (ticket_row_key_group t seq ty cat adm).
  unfold summary_row, agg_count, agg_sold, agg_visitors, shifted.
  rewrite Hsold, Hvis, Hlen.
  destruct (decide (group_key t = Some (seq, ty, cat, adm))) as [Hg|Hg].
  - rewrite !decide_True by done. simpl. apply summary_row_ext; lia.
  - rewrite !decide_False by done. simpl. apply summary_row_ext; lia.
Qed.

Lemma shift_group_of_perm t dsold dvis s1 s2 :
  s1 ≡ₚ s2 → shift_group_of t dsold dvis s1 ≡ₚ shift_group_of t dsold dvis s2.
Proof. intros Hp. unfold shift_group_of. by rewrite Hp. Qed.

Lemma summary_insert df i t t' :
  df !! i = Some t → identity t' = identity t →
  ∃ s s', summary df = Some s ∧ summary (<[i := t']> df) = Some s'
    ∧ s' ≡ₚ shift_group_of t ((if Sold t' then 1 else 0) - (if Sold t then 1 else 0))
              (Visitor_Seats t' - Visitor_Seats t) s.
Proof.
  intros Hi Hid.
  destruct (summary_total df) as (s & Hs & Hperm).
  destruct (summary_total (<[i := t']> df)) as (s' & Hs' & Hperm').
  exists s, s'. split_and!; [done..|].
  rewrite Hperm', (grouped_insert _ _ _ _ Hi Hid).
  by apply shift_group_of_perm.
Qed.

(** X18. With unique ticket ids, an accepted manual sale shows on the
    dashboard as one more sold ticket in the group of that ticket: in the row
    of the group Tickets_Sold goes up by 1, Seats_sold and Balance_Visitors by
    Admit, Balance_Tickets goes down by 1 and Balance_Seats by Admit; every
    other column and every other row is as before. An accepted reversal of a
    sale does the opposite. *)
Theorem sales_on_dashboard menu ty cat tid cust now tickets tickets' :
  NoDup (TicketID <$> tickets) →
  (manual_sale menu ty cat tid cust now tickets = Some tickets' →
     ∃ t s s', t ∈ tickets ∧ TicketID t = tid
       ∧ summary tickets = Some s ∧ summary tickets' = Some s'
       ∧ s' ≡ₚ shift_group_of t 1 0 s)
  ∧ (reverse_sale tid tickets = Some tickets' →
     ∃ t s s', t ∈ tickets ∧ TicketID t = tid
       ∧ summary tickets = Some s ∧ summary tickets' = Some s'
       ∧ s' ≡ₚ shift_group_of t (-1) 0 s).
Proof.
  intros Hnd. split.
  - intros (idx & t & Hidx & Hi & _ & Havail & ->)%manual_sale_Some.
    destruct (offered_unique _ _ _ _ _ Hnd Havail Hidx Hi) as (_ & _ & Hs).
    destruct (summary_insert tickets idx t
                (set_Timestamp (Some now) (set_Customer cust (set_Sold true t))) Hi eq_refl)
      as (s & s' & Hsum & Hsum' & Hperm).
    exists t, s, s'. split_and!; [by eapply list_elem_of_lookup_2| |done..|].
    + by apply first_index_Some in Hidx as (t0 & Hi0 & <- & _); simplify_eq.
    + simpl in Hperm. rewrite Hs in Hperm.
      by replace (Visitor_Seats t - Visitor_Seats t) with 0 in Hperm by lia.
  - intros (idx & t & Hidx & Hi & Hsold & ->)%reverse_sale_Some.
    pose proof (offered_unique _ _ _ _ _ Hnd Hsold Hidx Hi) as Hs. simpl in Hs.
    destruct (summary_insert tickets idx t
                (set_Timestamp None (set_Customer "" (set_Sold false t))) Hi eq_refl)
      as (s & s' & Hsum & Hsum' & Hperm).
    exists t, s, s'. split_and!; [by eapply list_elem_of_lookup_2| |done..|].
    + by apply first_index_Some in Hidx as (t0 & Hi0 & <- & _); simplify_eq.
    + simpl in Hperm. rewrite Hs in Hperm.
      by replace (Visitor_Seats t - Visitor_Seats t) with 0 in Hperm by lia.
Qed.

Lemma sales_on_dashboard_witness :
  ∃ t s s', t ∈ sample_tickets ∧ TicketID t = "0007"
    ∧ summary sample_tickets = Some s
    ∧ summary (<[0%nat := mkTicket "0007" "Public" "Gold" 4 (Some 1) true "Alice" false 0
                                   (Some "12:00")]> sample_tickets) = Some s'
    ∧ s' ≡ₚ shift_group_of t 1 0 s.
Proof.
  destruct (sales_on_dashboard sample_menu Public "Gold" "0007" "Alice" "12:00"
              sample_tickets
              (<[0%nat := mkTicket "0007" "Public" "Gold" 4 (Some 1) true "Alice" false 0
                                   (Some "12:00")]> sample_tickets)
              sample_tickets_unique) as [Hsale _].
  apply Hsale. reflexivity.
Defined.

(** X19. An accepted check-in shows on the dashboard in the row of the
    ticket's group only, and by the count that was written, which is the
    count the number input hands back on the submit run (between 1 and the
    ticket's Admit) and need not be the count entered: Total_Visitors goes up
    by that count minus the visitor seats the ticket had, and Balance_Visitors
    down by as much; the sold columns do not move. An accepted reversal of an
    entry takes the ticket's visitor seats out of Total_Visitors again. Every
    other row is as before. *)
Theorem visits_on_dashboard menu ty cat tid v now tickets tickets' :
  (check_in menu ty cat tid v now tickets = Some tickets' →
     ∃ t w s s', t ∈ tickets ∧ TicketID t = tid
       ∧ confirmed_visitors ty cat tid v tickets = Some w ∧ 1 ≤ w ≤ Admit t
       ∧ summary tickets = Some s ∧ summary tickets' = Some s'
       ∧ s' ≡ₚ shift_group_of t 0 (w - Visitor_Seats t) s)
  ∧ (reverse_entry tid tickets = Some tickets' →
     ∃ t s s', t ∈ tickets ∧ TicketID t = tid
       ∧ summary tickets = Some s ∧ summary tickets' = Some s'
       ∧ s' ≡ₚ shift_group_of t 0 (0 - Visitor_Seats t) s).
Proof.
  split.
  - intros (idx & t & w & Hidx & Hi & _ & _ & Hw & Hrange & ->)%check_in_Some.
    destruct (summary_insert tickets idx t
                (set_Timestamp (Some now) (set_Visitor_Seats w (set_Visited true t)))
                Hi eq_refl)
      as (s & s' & Hsum & Hsum' & Hperm).
    exists t, w, s, s'.
    split; [by eapply list_elem_of_lookup_2|].
    split; [by apply first_index_Some in Hidx as (t0 & Hi0 & <- & _); simplify_eq|].
    do 4 (split; [done|]).
    simpl in Hperm.
    by replace ((if Sold t then 1 else 0) - (if Sold t then 1 else 0)) with 0
      in Hperm by lia.
  - intros (idx & t & Hidx & Hi & _ & ->)%reverse_entry_Some.
    destruct (summary_insert tickets idx t
                (set_Visitor_Seats 0 (set_Visited false t)) Hi eq_refl)
      as (s & s' & Hsum & Hsum' & Hperm).
    exists t, s, s'. split_and!; [by eapply list_elem_of_lookup_2| |done..|].
    + by apply first_index_Some in Hidx as (t0 & Hi0 & <- & _); simplify_eq.
    + simpl in Hperm.
      by replace ((if Sold t then 1 else 0) - (if Sold t then 1 else 0)) with 0
        in Hperm by lia.
Qed.

(** ** More on the menu recalculation *)

Lemma derive_entry row : menu_entry (derive row) = menu_entry row.
Proof.
  unfold derive. destruct (contains_dash _); [|done].
  destruct (parse_series _) as [[start end_]|]; [|done]. simpl.
  destruct (decide (int64_fits _)); [|done].
  destruct (times_admit _ _) as [product|]; [|done].
  by destruct (decide (int64_fits _)).
Qed.

Lemma derive_idemp row : derive (derive row) = derive row.
Proof.
  pose proof (derive_entry row) as He. unfold menu_entry in He.
  injection He as _ _ _ Hseries Hadm.
  unfold derive at 1. rewrite Hseries, Hadm. unfold derive.
  destruct (contains_dash _); [|done].
  destruct (parse_series _) as [[start end_]|]; [|done]. simpl.
  destruct (decide (int64_fits _)); [|done].
  destruct (times_admit _ _) as [product|]; [|done].
  by destruct (decide (int64_fits _)).
Qed.

Lemma category_options_derive menu ty :
  category_options (derive <$> menu) ty = category_options menu ty.
Proof.
  unfold category_options. induction menu as [|m menu IH]; [done|].
  pose proof (derive_entry m) as He. unfold menu_entry in He.
  injection He as _ Hty Hcat _ _.
  rewrite fmap_cons, !filter_cons, Hty.
  case_decide; [rewrite !fmap_cons, Hcat|]; by rewrite IH.
Qed.

(** X20. The recalculation pass writes to Alloc and Total_Capacity only: the
    menu keeps its rows and, in each row, Seq, Type, Category, Series and
    Admit, so the categories offered by the sale and entry forms are the same
    before and after; and running the pass again on its own result changes
    nothing. *)
Theorem recalculate_keeps_menu edited_menu :
  length (recalculate edited_menu) = length edited_menu
  ∧ menu_entry <$> recalculate edited_menu = menu_entry <$> edited_menu
  ∧ (∀ ty, category_options (recalculate edited_menu) ty
           = category_options edited_menu ty)
  ∧ recalculate (recalculate edited_menu) = recalculate edited_menu.
Proof.
  rewrite !recalculate_rows. split_and!.
  - by rewrite length_fmap.
  - rewrite <-list_fmap_compose. apply fmap_ext_all. intros m. apply derive_entry.
  - intros ty. apply category_options_derive.
  - rewrite <-list_fmap_compose. apply fmap_ext_all. intros m. apply derive_idemp.
Qed.

(** ** The count that a check-in writes *)

Lemma max_v_unique tickets i t :
  NoDup (TicketID <$> tickets) → tickets !! i = Some t →
  max_v (TicketID t) tickets = Some (Admit t).
Proof.
  intros Hnd Hi. eapply max_v_at; [|done]. by apply unique_first_index.
Qed.

(** X21. With unique ticket ids, for a sold and not yet visited ticket of a
    category the menu offers: the number input of the check-in form is built
    for the first eligible ticket of the category, so the count entered lies
    between 1 and the Admit of that ticket; the check-in is accepted and
    writes Visited, the Timestamp and a count, and the count is the one
    entered when the selected ticket has the Admit of that first ticket
    (always so when it is that ticket, or when the tickets of the category
    share their Admit), and otherwise the Admit of the selected ticket. *)
Theorem check_in_count_written menu ty cat tickets i t i0 t0 v now :
  NoDup (TicketID <$> tickets) →
  tickets !! i = Some t →
  Type_ t = type_label ty → Category t = cat → cat ∈ category_options menu ty →
  Sold t = true → Visited t = false →
  head (elig ty cat tickets) = Some (TicketID t0) → tickets !! i0 = Some t0 →
  1 ≤ v ≤ Admit t0 → 1 ≤ Admit t →
  check_in menu ty cat (TicketID t) v now tickets
  = Some (<[i := mkTicket (TicketID t) (Type_ t) (Category t) (Admit t) (Seq t)
                          (Sold t) (Customer t) true
                          (if decide (Admit t = Admit t0) then v else Admit t)
                          (Some now)]> tickets).
Proof.
  intros Hnd Hi Hty Hcat Hmenu Hsold Hvis Hfirst Hi0 Hv Hadm.
  pose proof (unique_first_index _ _ _ Hnd Hi) as Hidx.
  unfold check_in. rewrite decide_True.
  2:{ split; [done|]. apply elem_of_offered; [|done]. by eapply list_elem_of_lookup_2. }
  unfold confirmed_visitors. rewrite Hfirst. simpl.
  rewrite (max_v_unique _ _ _ Hnd Hi0). simpl.
  rewrite (max_v_unique _ _ _ Hnd Hi). unfold number_input.
  rewrite !decide_True by lia. simpl. rewrite decide_True by lia.
  destruct (decide (Admit t = Admit t0)) as [Heq|Hne].
  - rewrite decide_True by (by rewrite Heq). simpl.
    by rewrite (checkin_mutation_at _ _ _ _ _ _ Hidx Hi).
  - rewrite decide_False by (intros (_ & ? & _); congruence). simpl.
    by rewrite (checkin_mutation_at _ _ _ _ _ _ Hidx Hi).
Qed.

Lemma check_in_count_written_witness :
  check_in sample_menu Public "Gold" "0021" 3 "11:00" two_eligible_tickets
  = Some (<[0%nat := mkTicket "0021" "Public" "Gold" 4 (Some 1) true "Fay" true 3
                              (Some "11:00")]> two_eligible_tickets)
  ∧ check_in sample_menu Public "Gold" "0022" 3 "11:00" two_eligible_tickets
    = Some (<[1%nat := mkTicket "0022" "Public" "Gold" 2 (Some 1) true "Gus" true 2
                                (Some "11:00")]> two_eligible_tickets).
Proof.
  assert (Hnd : NoDup (TicketID <$> two_eligible_tickets)) by compute_done.
  split.
  - apply (check_in_count_written sample_menu Public "Gold" two_eligible_tickets 0
             (mkTicket "0021" "Public" "Gold" 4 (Some 1) true "Fay" false 0 (Some "09:00"))
             0
             (mkTicket "0021" "Public" "Gold" 4 (Some 1) true "Fay" false 0 (Some "09:00"))
             3 "11:00" Hnd eq_refl eq_refl eq_refl sample_gold_offered eq_refl eq_refl
             eq_refl eq_refl); simpl; lia.
  - apply (check_in_count_written sample_menu Public "Gold" two_eligible_tickets 1
             (mkTicket "0022" "Public" "Gold" 2 (Some 1) true "Gus" false 0 (Some "09:05"))
             0
             (mkTicket "0021" "Public" "Gold" 4 (Some 1) true "Fay" false 0 (Some "09:00"))
             3 "11:00" Hnd eq_refl eq_refl eq_refl sample_gold_offered eq_refl eq_refl
             eq_refl eq_refl); simpl; lia.
Defined.
